(** * vscode-svd-viewer: the tree-table view and the message node

    A shallow embedding of the two source files of the repository,

    - [treetable.tsx] (the React component [AntDComponentTreeTable]) and
    - [src/views/nodes/messagenode.ts] (the class [MessageNode]),

    followed by the properties of the specification that are about them.

    Conventions of the embedding:
    - an optional property ([x?: T], a value that may be [undefined]) is an
      [option]; optional chaining [a?.b?.(...)] is a [match] on it;
    - an array the view writes to lives in a store ([gmap nat ...]) and is
      held by reference, so that aliasing between the props and the
      component state is visible; arrays the view only reads are lists;
    - calls of the consumer's callbacks are recorded, in order, in a trace. *)

From Stdlib Require Import ZArith Sorting.Sorted.
From stdpp Require Import base option list sorting gmap strings.

Local Open Scope Z_scope.
Local Open Scope string_scope.

(** ** JavaScript values and promises *)

(** A value of TypeScript type [unknown], as far as the view can hold one:
    the view only passes such values on, it never inspects them. *)
Inductive JsValue :=
| JsUndefined
| JsNull
| JsBoolean (b : bool)
| JsNumber (n : Z)
| JsString (s : string).

(** A settled promise.  [Promise.resolve v] is [Fulfilled v]. *)
Inductive Promise (A : Type) :=
| Fulfilled (value : A)
| Rejected (reason : JsValue).
Arguments Fulfilled {A} value.
Arguments Rejected {A} reason.

(** The result of a method whose return type is [T | Promise<T>]. *)
Inductive MaybePromise (A : Type) :=
| Now (value : A)
| Later (p : Promise A).
Arguments Now {A} value.
Arguments Later {A} p.

(** What [await] gives on a [T | Promise<T>]. *)
Definition await {A : Type} (r : MaybePromise A) : Promise A :=
  match r with
  | Now v => Fulfilled v
  | Later p => p
  end.

(** Truthiness of a string: every string but the empty one. *)
Definition string_truthy (s : string) : bool :=
  match s with
  | EmptyString => false
  | String _ _ => true
  end.

(** ** The message node ([messagenode.ts]) *)

Module MessageNode.

(** [vscode.MarkdownString]: an object, hence always truthy. *)
Record MarkdownString := { md_value : string }.

(** [string | MarkdownString] *)
Inductive Tooltip :=
| TooltipString (s : string)
| TooltipMarkdown (md : MarkdownString).

Definition truthy (t : option Tooltip) : bool :=
  match t with
  | None => false
  | Some (TooltipString s) => string_truthy s
  | Some (TooltipMarkdown _) => true
  end.

(** [vscode.TreeItemCollapsibleState] *)
Inductive TreeItemCollapsibleState := None_ | Collapsed | Expanded.

(** A property of a host object: never assigned, or assigned a value that
    may itself be [undefined]. *)
Inductive Field (A : Type) :=
| Unassigned
| Assigned (v : option A).
Arguments Unassigned {A}.
Arguments Assigned {A} v.

(** [vscode.TreeItem], with the properties [getTreeItem] touches. *)
Record TreeItem := {
  label : string;
  collapsibleState : TreeItemCollapsibleState;
  ti_tooltip : Field Tooltip
}.

(** [new TreeItem(label, collapsibleState)] *)
Definition newTreeItem (l : string) (c : TreeItemCollapsibleState) : TreeItem :=
  {| label := l; collapsibleState := c; ti_tooltip := Unassigned |}.

(** [constructor(public message: string, public tooltip?: string | MarkdownString)] *)
Record MessageNode := {
  message : string;
  tooltip : option Tooltip
}.

Section Methods.
(** The classes of the other files of the node model, which the message
    node only mentions in its signatures. *)
Variables PeripheralBaseNode AddrRange NodeSetting : Type.

Definition getChildren (this : MessageNode) : MaybePromise (list PeripheralBaseNode) :=
  Now [].

Definition getTreeItem (this : MessageNode) : MaybePromise TreeItem :=
  let ti := newTreeItem (message this) None_ in
  let ti :=
    if truthy (tooltip this)
    then {| label := label ti;
            collapsibleState := collapsibleState ti;
            ti_tooltip := Assigned (tooltip this) |}
    else ti in
  Now ti.

Definition getCopyValue (this : MessageNode) : option string := None.

Definition performUpdate (this : MessageNode) : Promise bool := Fulfilled false.

Definition updateData (this : MessageNode) : Promise bool := Fulfilled false.

Definition getPeripheral (this : MessageNode) : option PeripheralBaseNode := None.

(** [collectRanges(ary): void] has an empty body: the accumulator it is
    handed is the accumulator afterwards. *)
Definition collectRanges (this : MessageNode) (ary : list AddrRange) : list AddrRange :=
  ary.

Definition saveState (this : MessageNode) (path : option string) : list NodeSetting := [].

Definition findByPath (this : MessageNode) (path : list string) : option PeripheralBaseNode :=
  None.
End Methods.

End MessageNode.

(** ** The tree table ([treetable.tsx]) *)

Module TreeTable.

(** *** Data of the props *)

(** Modelled from the spec: the type [CommandDefinition] of [common], which
    is not among the sources: a command identity, an icon name and the
    value associated with the command ([undefined] when it has none). *)
Record CommandDefinition := {
  commandId : string;
  icon : string;
  value : JsValue
}.

(** Modelled from the spec: the cell data [row.columns[field]] of [types],
    not among the sources.  It is a plain object: every property the view
    reads may be missing, whatever the [type] tag says. *)
Record CDTTreeTableColumn := {
  cell_type : string;
  cell_icon : option string;
  cell_label : option string;
  cell_highlight : option (list (nat * nat));
  cell_tooltip : option string;
  commands : option (list CommandDefinition)
}.

(** Modelled from the spec: the row type [CDTTreeItem] of [types], not
    among the sources, with the properties the view reads: the stable row
    key, the optional pinned flag and the per-column cell data. *)
Record CDTTreeItem := {
  id : string;
  pinned : option bool;
  columns : option (gmap string CDTTreeTableColumn)
}.

(** Modelled from the spec: [CDTTreeTableColumnDefinition] of [types], a
    field key and a variant tag. *)
Record CDTTreeTableColumnDefinition := {
  type : string;
  field : string
}.

(** [React.MouseEvent], an opaque token for the view. *)
Record MouseEvent := { eventId : nat }.

(** *** Callbacks of the consumer

    The callbacks are code of the embedding application.  Each call the
    view makes is recorded with its arguments.  A callback that is handed
    the mouse event can do one thing the view feels: stop the event from
    bubbling.  Its result says whether it did. *)
Inductive EventAction := LetBubble | StopPropagation.

Definition ExpandCallback : Type := bool -> CDTTreeItem -> unit.
Definition PinCallback : Type := MouseEvent -> bool -> CDTTreeItem -> EventAction.
Definition ActionCallback : Type :=
  MouseEvent -> CommandDefinition -> JsValue -> CDTTreeItem -> EventAction.

Inductive Call :=
| OnExpand (expanded : bool) (record : CDTTreeItem)
| OnPin (event : MouseEvent) (pinned : bool) (record : CDTTreeItem)
| OnAction (event : MouseEvent) (command : CommandDefinition) (value : JsValue)
           (record : CDTTreeItem).

(** An array the view only reads: its identity (what [Object.is] compares
    in a dependency list) and its elements. *)
Record ArrayProp (A : Type) := {
  ref : nat;
  items : list A
}.
Arguments ref {A} _.
Arguments items {A} _.

Record ExpansionProps := {
  expandedRowKeys : option (list string);
  onExpand : option ExpandCallback
}.

Record PinProps := {
  pinnedRowKeys : option (ArrayProp string);
  onPin : option PinCallback
}.

Record ActionProps := {
  onAction : option ActionCallback
}.

(** [ComponentTreeTableProps].  [dataSource] is a reference into the store
    of row arrays, which is shared with the caller. *)
Record Props := {
  columnDefinitions : option (ArrayProp CDTTreeTableColumnDefinition);
  dataSource : option nat;
  dataSourceComparer : option (CDTTreeItem -> CDTTreeItem -> Z);
  expansion : option ExpansionProps;
  pin : option PinProps;
  action : option ActionProps
}.

(** *** Event handlers *)

(** The state of one click being dispatched: the callbacks called so far
    and whether propagation of the event was stopped. *)
Record Dispatch := {
  calls : list Call;
  propagationStopped : bool
}.

Definition start : Dispatch := {| calls := []; propagationStopped := false |}.

Definition Handler : Type := MouseEvent -> Dispatch -> Dispatch.

Definition record_call (c : Call) (a : EventAction) (d : Dispatch) : Dispatch :=
  {| calls := calls d ++ [c];
     propagationStopped :=
       match a with
       | StopPropagation => true
       | LetBubble => propagationStopped d
       end |}.

(** [props.expansion?.onExpand?.(expanded, record)] *)
Definition callOnExpand (props : Props) (expanded : bool) (record : CDTTreeItem)
  : Dispatch -> Dispatch :=
  match expansion props ≫= onExpand with
  | None => fun d => d
  | Some _ => record_call (OnExpand expanded record) LetBubble
  end.

(** [props.pin?.onPin?.(event, pinned, record)] *)
Definition callOnPin (props : Props) (event : MouseEvent) (newPinned : bool)
    (record : CDTTreeItem) : Dispatch -> Dispatch :=
  match pin props ≫= onPin with
  | None => fun d => d
  | Some f => record_call (OnPin event newPinned record) (f event newPinned record)
  end.

(** [props.action?.onAction?.(event, command, value, record)] *)
Definition callOnAction (props : Props) (event : MouseEvent) (command : CommandDefinition)
    (v : JsValue) (record : CDTTreeItem) : Dispatch -> Dispatch :=
  match action props ≫= onAction with
  | None => fun d => d
  | Some f => record_call (OnAction event command v record) (f event command v record)
  end.

(** [Array.prototype.includes] on an array of strings. *)
Fixpoint includes (keys : list string) (key : string) : bool :=
  match keys with
  | [] => false
  | k :: keys' => if String.eqb k key then true else includes keys' key
  end.

(** [!x] for [x] a boolean or [undefined]. *)
Definition not_ (x : option bool) : bool :=
  match x with
  | None => true
  | Some b => negb b
  end.

(** The [onClick] that [onRow] attaches to the row of [record]:
    [props.expansion?.onExpand?.(!props.expansion?.expandedRowKeys?.includes(record.id), record)] *)
Definition onRowClick (props : Props) (record : CDTTreeItem) : Handler :=
  fun _ =>
    callOnExpand props
      (not_ ((fun keys => includes keys (id record)) <$> (expansion props ≫= expandedRowKeys)))
      record.

(** *** Renderers *)

(** An [<i key=... className=... onClick=...>] element. *)
Record IconElement := {
  key : string;
  className : string;
  onClick : Handler
}.

(** What [renderStringColumn] returns: the optional icon, the label with
    its highlight ranges (the argument of [createHighlightedText]) and the
    optional tooltip wrapped around it. *)
Record StringCell := {
  iconClass : option string;
  text : option string;
  highlight : option (list (nat * nat));
  wrappedTooltip : option string
}.

(** [columnDef] is [undefined] when the row has no data for the column;
    reading [columnDef.icon] then throws, which is [None] here. *)
Definition renderStringColumn (label : option string) (_record : CDTTreeItem)
    (columnDef : option CDTTreeTableColumn) : option StringCell :=
  columnDef ← columnDef;
  Some {| iconClass :=
            match cell_icon columnDef with
            | Some i => if string_truthy i then Some ("cell-icon " ++ i) else None
            | None => None
            end;
          text := label;
          highlight := cell_highlight columnDef;
          wrappedTooltip :=
            match cell_tooltip columnDef with
            | Some t => if string_truthy t then Some t else None
            | None => None
            end |}.

(** The local array [actions] of [renderActionColumn]: the pin toggle. *)
Definition actions (props : Props) (record : CDTTreeItem) : list IconElement :=
  match pinned record with
  | None => []
  | Some true =>
      [ {| key := "unpin";
           className := "codicon codicon-pin";
           onClick := fun event => callOnPin props event false record |} ]
  | Some false =>
      [ {| key := "pin";
           className := "codicon codicon-pinned";
           onClick := fun event => callOnPin props event true record |} ]
  end.

(** The element built for one command by the [map] of [renderActionColumn]. *)
Definition commandIcon (props : Props) (record : CDTTreeItem) (command : CommandDefinition)
  : IconElement :=
  {| key := commandId command;
     className := "codicon codicon-" ++ icon command;
     onClick := fun event => callOnAction props event command (value command) record |}.

(** The icons of [<div className="tree-actions">] in the order they are
    drawn: the toggle, which is spread in as a child of its own, then the
    icons of the commands, which are one array child. *)
Definition renderActionColumn (props : Props) (column : option CDTTreeTableColumn)
    (record : CDTTreeItem) : list IconElement :=
  actions props record
    ++ match column ≫= commands with
       | Some cs => map (commandIcon props record) cs
       | None => []
       end.

(** *** Columns *)

Inductive Renderer :=
| StringRenderer (field : string)
| ActionRenderer.

(** antd's [ColumnType], with the properties [createColumns] sets; a
    column without [render] shows the value found at [dataIndex]. *)
Record ColumnType := {
  title : string;
  dataIndex : list string;
  width : Z;
  render : option Renderer
}.

Definition stringColumn (def : CDTTreeTableColumnDefinition) : ColumnType :=
  {| title := field def;
     dataIndex := ["columns"; field def; "label"];
     width := 0;
     render := Some (StringRenderer (field def)) |}.

Definition actionColumn (def : CDTTreeTableColumnDefinition) : ColumnType :=
  {| title := field def;
     dataIndex := ["columns"; field def];
     width := 64;
     render := Some ActionRenderer |}.

Definition createColumns (columnDefinitions : list CDTTreeTableColumnDefinition)
  : list ColumnType :=
  map (fun c =>
         if String.eqb (type c) "string" then stringColumn c
         else if String.eqb (type c) "action" then actionColumn c
         else {| title := field c;
                 dataIndex := ["columns"; field c; "label"];
                 width := 200;
                 render := None |})
      columnDefinitions.

(** *** Cells *)

(** The objects reachable from a row by property names. *)
Inductive Data :=
| DRow (r : CDTTreeItem)
| DColumns (m : gmap string CDTTreeTableColumn)
| DColumn (c : CDTTreeTableColumn)
| DString (s : string).

Definition getProperty (o : Data) (name : string) : option Data :=
  match o with
  | DRow r =>
      if String.eqb name "columns" then DColumns <$> columns r
      else if String.eqb name "id" then Some (DString (id r))
      else None
  | DColumns m => DColumn <$> m !! name
  | DColumn c =>
      if String.eqb name "label" then DString <$> cell_label c
      else if String.eqb name "type" then Some (DString (cell_type c))
      else if String.eqb name "icon" then DString <$> cell_icon c
      else if String.eqb name "tooltip" then DString <$> cell_tooltip c
      else None
  | DString _ => None
  end.

(** [getNestedValue(record, path)], and the lookup antd does with
    [dataIndex]: follow the property names, [undefined] as soon as one is
    missing. *)
Definition getNestedValue (record : CDTTreeItem) (path : list string) : option Data :=
  foldl (fun o name => o ≫= fun o => getProperty o name) (Some (DRow record)) path.

Definition asString (d : option Data) : option string :=
  match d with
  | Some (DString s) => Some s
  | _ => None
  end.

Definition asColumn (d : option Data) : option CDTTreeTableColumn :=
  match d with
  | Some (DColumn c) => Some c
  | _ => None
  end.

Inductive Cell :=
| DefaultCell (shown : option Data)
| StringCellOf (c : StringCell)
| ActionCell (icons : list IconElement).

(** The cell of [record] in column [col]: antd reads the value at
    [dataIndex] and hands it to [render] when there is one.  [None] is a
    renderer that throws. *)
Definition renderCell (props : Props) (col : ColumnType) (record : CDTTreeItem)
  : option Cell :=
  let v := getNestedValue record (dataIndex col) in
  match render col with
  | None => Some (DefaultCell v)
  | Some (StringRenderer f) =>
      StringCellOf <$>
        renderStringColumn (asString v) record (asColumn (getNestedValue record ["columns"; f]))
  | Some ActionRenderer => Some (ActionCell (renderActionColumn props (asColumn v) record))
  end.

(** *** Clicks

    React hands a click to the handler of the element that was clicked and
    then to the handlers of its ancestors, innermost first, for as long as
    propagation has not been stopped.  The row component [BodyRow] spreads
    the props it is given, the [onClick] of [onRow] among them, on the
    [div] of the row; the cells, and the icons of an action cell in them,
    are inside that [div], and the component puts no handler in between. *)
Fixpoint bubble (path : list Handler) (event : MouseEvent) (d : Dispatch) : Dispatch :=
  match path with
  | [] => d
  | h :: outer =>
      let d' := h event d in
      if propagationStopped d' then d' else bubble outer event d'
  end.

(** A click on the row of [record], outside every icon. *)
Definition clickRow (props : Props) (record : CDTTreeItem) (event : MouseEvent) : Dispatch :=
  bubble [onRowClick props record] event start.

(** A click on the icon [i] of an action cell of the row of [record]. *)
Definition clickIcon (props : Props) (record : CDTTreeItem) (i : IconElement)
    (event : MouseEvent) : Dispatch :=
  bubble [onClick i; onRowClick props record] event start.

(** *** Sorting

    [Array.prototype.sort(comparefn)] sorts the array in place and returns
    that same array.  It is a stable sort; for a consistent comparator that
    fixes the result, which is the one computed here: each element goes in
    front of the first element that does not have to precede it.  (For
    other comparators the language leaves the order to the engine.) *)
Section Sort.
Context {A : Type}.

Fixpoint sortedInsert (comparefn : A -> A -> Z) (x : A) (sorted : list A) : list A :=
  match sorted with
  | [] => [x]
  | y :: rest =>
      if Z.leb (comparefn x y) 0 then x :: y :: rest
      else y :: sortedInsert comparefn x rest
  end.

Definition sortBy (comparefn : A -> A -> Z) (l : list A) : list A :=
  foldr (sortedInsert comparefn) [] l.

(** [a] may stand in front of [b]. *)
Definition precedes (f : A → A → Z) (a b : A) : Prop := f a b <= 0.

(** A comparator the way [Array.prototype.sort] wants it: a sign that
    orders the elements totally, up to elements that compare equal. *)
Record Consistent (f : A → A → Z) : Prop := {
  compare_refl : ∀ a, f a a = 0;
  compare_flip : ∀ a b, f a b < 0 ↔ 0 < f b a;
  compare_trans : ∀ a b c, f a b <= 0 → f b c <= 0 → f a c <= 0
}.

(** [out] is [l] sorted by [f], stably: the same elements, each in front
    of all later ones, and elements that compare equal in the order they
    had in [l]. *)
Definition StableSortOf (f : A → A → Z) (l out : list A) : Prop :=
  l ≡ₚ out
  ∧ StronglySorted (precedes f) out
  ∧ ∀ z, filter (λ y, f z y = 0) out = filter (λ y, f z y = 0) l.
End Sort.

(** Without a comparator the elements are compared as strings.  The rows
    are plain objects, which all convert to the same string. *)
Definition defaultCompare (a b : CDTTreeItem) : Z := 0.

Definition sort (comparefn : option (CDTTreeItem -> CDTTreeItem -> Z))
    (l : list CDTTreeItem) : list CDTTreeItem :=
  sortBy (default defaultCompare comparefn) l.

(** *** The component

    The store holds the row arrays, by reference: the array of the props
    and the array of the component state can be one and the same object. *)
Abbreviation Store := (gmap nat (list CDTTreeItem)).

Definition readArray (σ : Store) (l : nat) : list CDTTreeItem :=
  default [] (σ !! l).

(** [props.dataSource ?? []]: the array of the props, or a new empty one. *)
Definition dataSourceOrEmpty (props : Props) (σ : Store) : nat * Store :=
  match dataSource props with
  | Some l => (l, σ)
  | None => let l := fresh (dom σ) in (l, <[l := []]> σ)
  end.

(** [props.columnDefinitions ?? []] *)
Definition columnDefinitionsOrEmpty (props : Props) : list CDTTreeTableColumnDefinition :=
  default [] (items <$> columnDefinitions props).

(** The hooks of one mounted component: the two [useState] cells and the
    dependency lists the two [useEffect] last ran with. *)
Record Hooks := {
  st_dataSource : nat;
  st_columns : list ColumnType;
  sortDeps : option nat * option nat;
  columnDeps : option nat
}.

(** [[props.dataSource, props.pin?.pinnedRowKeys]] *)
Definition sortDepsOf (props : Props) : option nat * option nat :=
  (dataSource props, ref <$> (pin props ≫= pinnedRowKeys)).

(** [[props.columnDefinitions]] *)
Definition columnDepsOf (props : Props) : option nat :=
  ref <$> columnDefinitions props.

(** The body of the first effect:
    [setDataSource((props.dataSource ?? []).sort(props.dataSourceComparer))].
    Gives the array the state is set to and the store afterwards. *)
Definition sortEffect (props : Props) (σ : Store) : nat * Store :=
  let '(l, σ) := dataSourceOrEmpty props σ in
  (l, alter (sort (dataSourceComparer props)) l σ).

(** The state cells as [useState] initialises them; the first render shows
    these. *)
Definition initial (props : Props) (σ : Store) : Hooks * Store :=
  let '(l, σ) := dataSourceOrEmpty props σ in
  ({| st_dataSource := l;
      st_columns := createColumns (columnDefinitionsOrEmpty props);
      sortDeps := sortDepsOf props;
      columnDeps := columnDepsOf props |}, σ).

(** Mounting: after the first render is committed both effects run, each
    setting its state cell. *)
Definition mount (props : Props) (σ : Store) : Hooks * Store :=
  let '(h, σ) := initial props σ in
  let '(l, σ) := sortEffect props σ in
  ({| st_dataSource := l;
      st_columns := createColumns (columnDefinitionsOrEmpty props);
      sortDeps := sortDeps h;
      columnDeps := columnDeps h |}, σ).

(** Does the first effect run again for these props? *)
Definition sortEffectRuns (h : Hooks) (props : Props) : bool :=
  negb (bool_decide (sortDeps h = sortDepsOf props)).

(** New props arrive: each effect runs again when one of its dependencies
    is no longer the same object. *)
Definition update (props : Props) (h : Hooks) (σ : Store) : Hooks * Store :=
  let '(l, σ) :=
    if sortEffectRuns h props then sortEffect props σ else (st_dataSource h, σ) in
  ({| st_dataSource := l;
      st_columns :=
        if bool_decide (columnDeps h = columnDepsOf props) then st_columns h
        else createColumns (columnDefinitionsOrEmpty props);
      sortDeps := sortDepsOf props;
      columnDeps := columnDepsOf props |}, σ).

(** What the component returns. *)
Inductive View :=
| NoChildrenProvided
| TableView (columns : list ColumnType) (dataSource : list CDTTreeItem).

Definition view (h : Hooks) (σ : Store) : View :=
  let dataSource := readArray σ (st_dataSource h) in
  if (length dataSource =? 0)%nat then NoChildrenProvided
  else TableView (st_columns h) dataSource.

(** The rows the component holds for rendering. *)
Definition heldRows (h : Hooks) (σ : Store) : list CDTTreeItem :=
  readArray σ (st_dataSource h).

(** *** The expand toggle

    antd calls [expandIcon] with the state of the row and with its own
    [onExpand], which takes the row and the event. *)
Record RenderExpandIconProps := {
  icon_expanded : bool;
  icon_onExpand : CDTTreeItem -> Handler;
  icon_record : CDTTreeItem;
  icon_expandable : bool
}.

(** The [<div className={classNames(...)} onClick=...>] of the toggle, with
    the arguments of [classNames]. *)
Record TogglerElement := {
  togglerClasses : list string;
  togglerOnClick : Handler
}.

(** [expandable.expandIcon]; [None] is the bare [return]. *)
Definition expandIcon (p : RenderExpandIconProps) : option TogglerElement :=
  if negb (icon_expandable p) then None
  else if icon_expanded p
  then Some {| togglerClasses := ["tree-toggler-container"; "codicon"; "codicon-chevron-down"];
               togglerOnClick := fun e => icon_onExpand p (icon_record p) e |}
  else Some {| togglerClasses := ["tree-toggler-container"; "codicon"; "codicon-chevron-right"];
               togglerOnClick := fun e => icon_onExpand p (icon_record p) e |}.

(** [expandable.onExpand]:
    [(expanded, record) => props.expansion?.onExpand?.(expanded, record)] *)
Definition expandableOnExpand (props : Props) (expanded : bool) (record : CDTTreeItem)
  : Dispatch -> Dispatch :=
  callOnExpand props expanded record.

(** A click on the toggle of the row of [record]; the toggle sits in a cell
    of the row, like the icons of an action cell. *)
Definition clickToggler (props : Props) (record : CDTTreeItem) (t : TogglerElement)
    (event : MouseEvent) : Dispatch :=
  bubble [togglerOnClick t; onRowClick props record] event start.

(** The row and the event a call was made with. *)
Definition callRecord (c : Call) : CDTTreeItem :=
  match c with
  | OnExpand _ r => r
  | OnPin _ _ r => r
  | OnAction _ _ _ r => r
  end.

Definition callEvent (c : Call) : option MouseEvent :=
  match c with
  | OnExpand _ _ => None
  | OnPin e _ _ => Some e
  | OnAction e _ _ _ => Some e
  end.

(** *** The window size ([useWindowSize])

    The window has its inner size and the listeners of its [resize] event,
    in the order they were added.  A listener is known by its identity: the
    [updateSize] closure of one mounted hook.  The page holds the window and
    the [size] state of every mounted hook, under the identity of its
    closure. *)
Record Window := {
  innerWidth : Z;
  innerHeight : Z;
  resizeListeners : list nat
}.

Record Page := {
  window : Window;
  sizes : gmap nat (Z * Z)
}.

(** [window.addEventListener('resize', f)]: a listener that is there already
    is not added again. *)
Definition addEventListener (f : nat) (w : Window) : Window :=
  {| innerWidth := innerWidth w;
     innerHeight := innerHeight w;
     resizeListeners :=
       if bool_decide (f ∈ resizeListeners w) then resizeListeners w
       else (resizeListeners w ++ [f])%list |}.

Fixpoint removeListener (f : nat) (fs : list nat) : list nat :=
  match fs with
  | [] => []
  | g :: fs' => if bool_decide (g = f) then fs' else g :: removeListener f fs'
  end.

(** [window.removeEventListener('resize', f)] *)
Definition removeEventListener (f : nat) (w : Window) : Window :=
  {| innerWidth := innerWidth w;
     innerHeight := innerHeight w;
     resizeListeners := removeListener f (resizeListeners w) |}.

(** [updateSize]: [setSize([window.innerWidth, window.innerHeight])]; setting
    the state of a hook that is not mounted does nothing. *)
Definition updateSize (f : nat) (p : Page) : Page :=
  {| window := window p;
     sizes := alter (fun _ => (innerWidth (window p), innerHeight (window p))) f (sizes p) |}.

(** Mounting the hook whose closure is [f]: [useState([0, 0])], then the
    layout effect adds the listener and calls [updateSize]. *)
Definition mountWindowSize (f : nat) (p : Page) : Page :=
  updateSize f
    {| window := addEventListener f (window p);
       sizes := <[f := (0, 0)]> (sizes p) |}.

(** Unmounting it: the cleanup of the layout effect removes the listener. *)
Definition unmountWindowSize (f : nat) (p : Page) : Page :=
  {| window := removeEventListener f (window p);
     sizes := delete f (sizes p) |}.

(** The window is resized: it has its new size, then the listeners of
    [resize] are called in order. *)
Definition resize (wd ht : Z) (p : Page) : Page :=
  foldl (fun p f => updateSize f p)
    {| window := {| innerWidth := wd; innerHeight := ht;
                    resizeListeners := resizeListeners (window p) |};
       sizes := sizes p |}
    (resizeListeners (window p)).

(** What [useWindowSize] returns to the component of closure [f]. *)
Definition useWindowSize (f : nat) (p : Page) : Z * Z :=
  default (0, 0) (sizes p !! f).

(** [scroll={{ x: width, y: height - 2 }}] *)
Definition scroll (size : Z * Z) : Z * Z := (size.1, size.2 - 2).

Inductive PageEvent :=
| Mounted (f : nat)
| Unmounted (f : nat)
| Resized (wd ht : Z).

Definition pageStep (p : Page) (e : PageEvent) : Page :=
  match e with
  | Mounted f => mountWindowSize f p
  | Unmounted f => unmountWindowSize f p
  | Resized wd ht => resize wd ht p
  end.

Definition runPage (es : list PageEvent) (p : Page) : Page := foldl pageStep p es.

(** A page nothing is mounted in. *)
Definition emptyPage (wd ht : Z) : Page :=
  {| window := {| innerWidth := wd; innerHeight := ht; resizeListeners := [] |};
     sizes := ∅ |}.

(** Every listener of the window belongs to a mounted hook and the other way
    round, no listener is there twice, and every mounted hook holds the size
    the window has. *)
Definition pageInv (p : Page) : Prop :=
  NoDup (resizeListeners (window p))
  ∧ (∀ f, f ∈ resizeListeners (window p) ↔ is_Some (sizes p !! f))
  ∧ (∀ f s, sizes p !! f = Some s →
            s = (innerWidth (window p), innerHeight (window p))).

End TreeTable.

(** ** Inputs used to exercise the model *)

Module Examples.
Import TreeTable.

Definition cmdRead : CommandDefinition :=
  {| commandId := "svd.read"; icon := "refresh"; value := JsString "0x4000" |}.

Definition cmdWrite : CommandDefinition :=
  {| commandId := "svd.write"; icon := "edit"; value := JsNumber 7 |}.

Definition actionsCell : CDTTreeTableColumn :=
  {| cell_type := "action"; cell_icon := None; cell_label := None;
     cell_highlight := None; cell_tooltip := None;
     commands := Some [cmdRead; cmdWrite] |}.

Definition nameCell (l : string) : CDTTreeTableColumn :=
  {| cell_type := "string"; cell_icon := None; cell_label := Some l;
     cell_highlight := None; cell_tooltip := None; commands := None |}.

Definition sizeCell : CDTTreeTableColumn :=
  {| cell_type := "number"; cell_icon := None; cell_label := Some "4 bytes";
     cell_highlight := None; cell_tooltip := None; commands := None |}.

Definition row (key : string) (p : option bool) : CDTTreeItem :=
  {| id := key;
     pinned := p;
     columns :=
       Some (<["size" := sizeCell]>
               (<["actions" := actionsCell]> (<["name" := nameCell key]> ∅))) |}.

Definition rowA : CDTTreeItem := row "a" (Some true).
Definition rowBB : CDTTreeItem := row "bb" (Some false).
Definition rowX : CDTTreeItem := row "xxx" None.

Definition click : MouseEvent := {| eventId := 1 |}.

(** A comparator: shorter keys first. *)
Definition byKeyLength (a b : CDTTreeItem) : Z :=
  Z.of_nat (String.length (id a)) - Z.of_nat (String.length (id b)).

(** A consumer whose callbacks leave the event alone. *)
Definition props0 : Props :=
  {| columnDefinitions :=
       Some {| ref := 10;
               items := [ {| type := "string"; field := "name" |};
                          {| type := "action"; field := "actions" |};
                          {| type := "number"; field := "size" |} ] |};
     dataSource := Some 0%nat;
     dataSourceComparer := Some byKeyLength;
     expansion := Some {| expandedRowKeys := Some ["a"]; onExpand := Some (fun _ _ => tt) |};
     pin := Some {| pinnedRowKeys := Some {| ref := 20; items := ["a"] |};
                    onPin := Some (fun _ _ _ => LetBubble) |};
     action := Some {| onAction := Some (fun _ _ _ _ => LetBubble) |} |}.

(** The same consumer after the pinned keys were replaced. *)
Definition props1 : Props :=
  {| columnDefinitions := columnDefinitions props0;
     dataSource := dataSource props0;
     dataSourceComparer := dataSourceComparer props0;
     expansion := expansion props0;
     pin := Some {| pinnedRowKeys := Some {| ref := 21; items := ["a"; "bb"] |};
                    onPin := Some (fun _ _ _ => LetBubble) |};
     action := action props0 |}.

(** A consumer whose action and pin callbacks stop the event. *)
Definition props2 : Props :=
  {| columnDefinitions := columnDefinitions props0;
     dataSource := dataSource props0;
     dataSourceComparer := dataSourceComparer props0;
     expansion := expansion props0;
     pin := Some {| pinnedRowKeys := Some {| ref := 20; items := ["a"] |};
                    onPin := Some (fun _ _ _ => StopPropagation) |};
     action := Some {| onAction := Some (fun _ _ _ _ => StopPropagation) |} |}.

(** A consumer that supplies the expand callback but no expanded keys. *)
Definition props3 : Props :=
  {| columnDefinitions := columnDefinitions props0;
     dataSource := dataSource props0;
     dataSourceComparer := dataSourceComparer props0;
     expansion := Some {| expandedRowKeys := None; onExpand := Some (fun _ _ => tt) |};
     pin := None;
     action := None |}.

Definition store0 : gmap nat (list CDTTreeItem) := {[ 0%nat := [rowBB; rowA] ]}.

(** A comparator: longer keys first. *)
Definition byKeyLengthDesc (a b : CDTTreeItem) : Z :=
  Z.of_nat (String.length (id b)) - Z.of_nat (String.length (id a)).

(** The consumer of [props0] with the other comparator and nothing else new. *)
Definition props4 : Props :=
  {| columnDefinitions := columnDefinitions props0;
     dataSource := dataSource props0;
     dataSourceComparer := Some byKeyLengthDesc;
     expansion := expansion props0;
     pin := pin props0;
     action := action props0 |}.

(** A consumer that supplies nothing at all. *)
Definition props5 : Props :=
  {| columnDefinitions := None;
     dataSource := None;
     dataSourceComparer := None;
     expansion := None;
     pin := None;
     action := None |}.

(** An [onExpand] for [expandIcon] that passes the state the row is to get
    on to [expandable.onExpand]. *)
Definition antdTrigger (props : Props) (expanded : bool) : CDTTreeItem -> Handler :=
  fun record _ => expandableOnExpand props (negb expanded) record.

End Examples.

(** ** Facts about the sort *)

Section SortFacts.
Import TreeTable.
Context {A : Type}.
Implicit Types (f : A → A → Z) (l : list A).

Lemma sortedInsert_perm f x l : sortedInsert f x l ≡ₚ x :: l.
Proof.
  induction l as [|y l IH]; simpl; [done|].
  destruct (Z.leb (f x y) 0); [done|].
  rewrite IH. apply Permutation_swap.
Qed.

Lemma sortBy_perm f l : l ≡ₚ sortBy f l.
Proof.
  induction l as [|x l IH]; simpl; [done|].
  unfold sortBy in *. simpl. rewrite sortedInsert_perm. by f_equiv.
Qed.

Lemma sortedInsert_sorted f x l :
  Consistent f → StronglySorted (precedes f) l →
  StronglySorted (precedes f) (sortedInsert f x l).
Proof.
  intros Hf. induction 1 as [|y l Hl IH Hy]; simpl.
  - repeat constructor.
  - destruct (Z.leb_spec (f x y) 0) as [Hle|Hgt].
    + constructor; [by constructor|].
      constructor; [done|].
      eapply Forall_impl; [exact Hy|].
      intros b Hb. eapply (compare_trans f Hf); [exact Hle | exact Hb].
    + constructor; [done|].
      rewrite sortedInsert_perm. constructor; [|done].
      unfold precedes.
      destruct (Z.lt_trichotomy (f y x) 0) as [?|[?|Hpos]]; [lia|lia|].
      apply (compare_flip f Hf) in Hgt. lia.
Qed.

Lemma sortBy_sorted f l : Consistent f → StronglySorted (precedes f) (sortBy f l).
Proof.
  intros Hf. induction l as [|x l IH]; [constructor|].
  by apply sortedInsert_sorted.
Qed.

Lemma compare_equal_trans f a b c :
  Consistent f → f a b = 0 → f a c = 0 → f b c = 0.
Proof.
  intros Hf Hab Hac.
  assert (f b a = 0) as Hba.
  { pose proof (compare_flip f Hf a b). pose proof (compare_flip f Hf b a). lia. }
  assert (f c a = 0) as Hca.
  { pose proof (compare_flip f Hf a c). pose proof (compare_flip f Hf c a). lia. }
  pose proof (compare_trans f Hf b a c).
  pose proof (compare_trans f Hf c a b).
  pose proof (compare_flip f Hf b c). pose proof (compare_flip f Hf c b). lia.
Qed.

Lemma sortedInsert_stable f x l z :
  Consistent f →
  filter (λ y, f z y = 0) (sortedInsert f x l) = filter (λ y, f z y = 0) (x :: l).
Proof.
  intros Hf. induction l as [|y l IH]; simpl; [done|].
  destruct (Z.leb_spec (f x y) 0) as [Hle|Hgt]; [done|].
  rewrite filter_cons, IH, !filter_cons.
  destruct (decide (f z y = 0)) as [Hy|Hy], (decide (f z x = 0)) as [Hx|Hx]; try done.
  pose proof (compare_equal_trans f z x y Hf Hx Hy). lia.
Qed.

Lemma sortBy_stable f l z :
  Consistent f → filter (λ y, f z y = 0) (sortBy f l) = filter (λ y, f z y = 0) l.
Proof.
  intros Hf. induction l as [|x l IH]; [done|].
  unfold sortBy in *. simpl. rewrite sortedInsert_stable by done.
  by rewrite !filter_cons, IH.
Qed.

Lemma sortBy_StableSortOf f l : Consistent f → StableSortOf f l (sortBy f l).
Proof.
  intros Hf. split; [apply sortBy_perm|].
  split; [by apply sortBy_sorted|]. intros z. by apply sortBy_stable.
Qed.

(** Sorting what is already in order changes nothing. *)
Lemma sortBy_sorted_id f l : StronglySorted (precedes f) l → sortBy f l = l.
Proof.
  induction 1 as [|x l Hl IH Hx]; [done|].
  unfold sortBy in *. simpl. rewrite IH.
  destruct Hx as [|y l Hxy _]; [done|]. simpl.
  unfold precedes in Hxy. by destruct (Z.leb_spec (f x y) 0); [|lia].
Qed.

(** With a comparator that finds all elements equal nothing moves. *)
Lemma sortBy_all_equal l : sortBy (λ _ _ : A, 0) l = l.
Proof.
  apply sortBy_sorted_id. induction l as [|x l IH]; constructor; [done|].
  apply Forall_forall. intros y _. unfold precedes. lia.
Qed.

(** A comparator that subtracts ranks is consistent. *)
Lemma rank_Consistent (rank : A → Z) : Consistent (λ a b, rank a - rank b).
Proof. split; intros; lia. Qed.
End SortFacts.

Section StableSortUnique.
Import TreeTable.
Context {A : Type} (f : A → A → Z) (Hf : Consistent f).

Lemma compare_both_ways a b : f a b <= 0 → f b a <= 0 → f a b = 0.
Proof. intros Hab Hba. pose proof (compare_flip f Hf a b). lia. Qed.

(** Two lists in comparator order, with the same elements and with the same
    order among elements that compare equal, are the same list. *)
Lemma stable_sorted_unique (out1 out2 : list A) :
  StronglySorted (precedes f) out1 →
  StronglySorted (precedes f) out2 →
  out1 ≡ₚ out2 →
  (∀ z, filter (λ y, f z y = 0) out1 = filter (λ y, f z y = 0) out2) →
  out1 = out2.
Proof.
  revert out2. induction out1 as [|x out1 IH]; intros out2 Hs1 Hs2 Hp Hfl.
  { by apply Permutation_nil_l. }
  destruct out2 as [|y out2]; [by apply Permutation_nil_r in Hp|].
  apply StronglySorted_inv in Hs1 as [Hs1 Hx].
  apply StronglySorted_inv in Hs2 as [Hs2 Hy].
  rewrite Forall_forall in Hx, Hy.
  assert (f x y = 0) as Hxy.
  { assert (y ∈ x :: out1) as Hyin by (rewrite Hp; apply list_elem_of_here).
    assert (x ∈ y :: out2) as Hxin by (rewrite <- Hp; apply list_elem_of_here).
    apply elem_of_cons in Hyin as [->|Hyin]; [apply (compare_refl f Hf)|].
    apply elem_of_cons in Hxin as [->|Hxin]; [apply (compare_refl f Hf)|].
    apply compare_both_ways; [by apply Hx | by apply Hy]. }
  assert (y = x) as ->.
  { pose proof (Hfl x) as Hhead. rewrite !filter_cons in Hhead.
    rewrite decide_True in Hhead by apply (compare_refl f Hf).
    rewrite decide_True in Hhead by done. by injection Hhead. }
  f_equal. apply IH; [done|done|by apply (inj (x ::.)) in Hp|].
  intros z. pose proof (Hfl z) as Hz. rewrite !filter_cons in Hz.
  destruct (decide (f z x = 0)); [by injection Hz | done].
Qed.

End StableSortUnique.

Section SortExamples.
Import TreeTable.

(** The comparator in force when none is supplied is consistent. *)
Lemma defaultCompare_Consistent : Consistent defaultCompare.
Proof. split; unfold defaultCompare; intros; lia. Qed.

Lemma byKeyLength_Consistent : Consistent Examples.byKeyLength.
Proof. exact (rank_Consistent (λ a : CDTTreeItem, Z.of_nat (String.length (id a)))). Qed.

(** "a", "bb" is "bb", "a" sorted by the length of the keys. *)
Lemma byKeyLength_stable_sort :
  StableSortOf Examples.byKeyLength [Examples.rowBB; Examples.rowA]
    [Examples.rowA; Examples.rowBB].
Proof.
  split; [apply Permutation_swap|]. split.
  - repeat constructor. unfold precedes. vm_compute. discriminate.
  - intros z. rewrite !filter_cons, !filter_nil.
    repeat case_decide; try done.
    unfold Examples.byKeyLength in *. cbn in *. lia.
Qed.

(** "bb", "a" is not in that order. *)
Lemma byKeyLength_unsorted :
  ¬ StronglySorted (precedes Examples.byKeyLength) [Examples.rowBB; Examples.rowA].
Proof.
  intros H. apply StronglySorted_inv in H as [_ H].
  apply Forall_cons in H as [H _]. unfold precedes in H. vm_compute in H. by apply H.
Qed.

End SortExamples.

(** ** Facts about the handlers and the component *)

Section ViewFacts.
Import TreeTable.

Lemma includes_elem_of (keys : list string) (k : string) :
  includes keys k = bool_decide (k ∈ keys).
Proof.
  induction keys as [|k' keys IH]; [done|]. cbn [includes].
  destruct (String.eqb_spec k' k) as [->|Hne].
  - symmetry. apply bool_decide_eq_true. apply list_elem_of_here.
  - rewrite IH. apply bool_decide_ext. rewrite elem_of_cons. split; [by right | intros [?|?]; [congruence | done]].
Qed.

(** What the row handler does, by what the consumer supplied. *)
Lemma onRowClick_supplied props ex cb record event d :
  expansion props = Some ex → onExpand ex = Some cb →
  onRowClick props record event d =
    record_call
      (OnExpand (not_ ((λ keys, includes keys (id record)) <$> expandedRowKeys ex)) record)
      LetBubble d.
Proof.
  intros Hex Hcb. unfold onRowClick, callOnExpand. rewrite Hex. simpl. by rewrite Hcb.
Qed.

Lemma onRowClick_absent props record event d :
  expansion props ≫= onExpand = None → onRowClick props record event d = d.
Proof. intros H. unfold onRowClick, callOnExpand. by rewrite H. Qed.

Lemma clickRow_onRowClick props record event :
  clickRow props record event = onRowClick props record event start.
Proof.
  unfold clickRow. cbn [bubble].
  by destruct (propagationStopped (onRowClick props record event start)).
Qed.

(** The row handler only adds to the trace and leaves the event alone. *)
Lemma onRowClick_appends props record event d :
  onRowClick props record event d =
    {| calls := calls d ++ calls (clickRow props record event);
       propagationStopped := propagationStopped d |}.
Proof.
  rewrite clickRow_onRowClick. unfold onRowClick, callOnExpand.
  destruct (expansion props ≫= onExpand); cbn.
  - done.
  - rewrite app_nil_r. by destruct d.
Qed.

(** A click on an icon: the handler of the icon, then, unless the event
    was stopped, the handler of the row. *)
Lemma clickIcon_unfold props record i event :
  clickIcon props record i event =
    let d := onClick i event start in
    if propagationStopped d then d
    else {| calls := calls d ++ calls (clickRow props record event);
            propagationStopped := false |}.
Proof.
  unfold clickIcon. cbn [bubble]. cbv zeta.
  destruct (propagationStopped (onClick i event start)) eqn:Hstop; [done|].
  rewrite onRowClick_appends, Hstop. done.
Qed.

(** The in-place sort, seen from the store. *)
Lemma sortEffect_store props (σ : gmap nat (list CDTTreeItem)) l R :
  dataSource props = Some l → σ !! l = Some R →
  sortEffect props σ = (l, <[l := sort (dataSourceComparer props) R]> σ).
Proof.
  intros Hl HR. unfold sortEffect, dataSourceOrEmpty. rewrite Hl. f_equal.
  apply map_eq. intros i. rewrite lookup_alter, lookup_insert.
  destruct (decide (l = i)) as [->|]; [by rewrite HR|done].
Qed.

Lemma mount_store props (σ : gmap nat (list CDTTreeItem)) l R :
  dataSource props = Some l → σ !! l = Some R →
  (mount props σ).2 = <[l := sort (dataSourceComparer props) R]> σ
  ∧ heldRows (mount props σ).1 (mount props σ).2 = sort (dataSourceComparer props) R.
Proof.
  intros Hl HR. unfold mount, initial.
  replace (dataSourceOrEmpty props σ) with (l, σ)
    by (unfold dataSourceOrEmpty; by rewrite Hl).
  rewrite (sortEffect_store props σ l R Hl HR). simpl. split; [done|].
  unfold heldRows, readArray. simpl. by rewrite lookup_insert_eq.
Qed.

Lemma update_store props h (σ : gmap nat (list CDTTreeItem)) l R :
  dataSource props = Some l → σ !! l = Some R → sortEffectRuns h props = true →
  (update props h σ).2 = <[l := sort (dataSourceComparer props) R]> σ
  ∧ heldRows (update props h σ).1 (update props h σ).2 = sort (dataSourceComparer props) R.
Proof.
  intros Hl HR Hruns. unfold update. rewrite Hruns.
  rewrite (sortEffect_store props σ l R Hl HR). simpl. split; [done|].
  unfold heldRows, readArray. simpl. by rewrite lookup_insert_eq.
Qed.

Lemma update_idle props h (σ : gmap nat (list CDTTreeItem)) :
  sortEffectRuns h props = false →
  (update props h σ).2 = σ ∧ st_dataSource (update props h σ).1 = st_dataSource h.
Proof. intros Hruns. unfold update. by rewrite Hruns. Qed.

End ViewFacts.

(** ** The message node *)

(** C5.  A message node answers every query of the node contract with the
    fixed empty answer: its children resolve to the empty sequence, it has
    no copy value, refreshing it and applying an update both resolve to
    [false], it saves no state, it leaves the accumulator of address ranges
    as it was, it has no owning peripheral, and no path leads to a node. *)
Theorem C5_message_node_fixed_answers :
  ∀ (Node Range Setting : Type) (n : MessageNode.MessageNode)
    (acc : list Range) (prefix : option string) (path : list string),
    await (MessageNode.getChildren Node n) = Fulfilled []
    ∧ MessageNode.getCopyValue n = None
    ∧ MessageNode.performUpdate n = Fulfilled false
    ∧ MessageNode.updateData n = Fulfilled false
    ∧ MessageNode.saveState Setting n prefix = []
    ∧ MessageNode.collectRanges Range n acc = acc
    ∧ MessageNode.getPeripheral Node n = None
    ∧ MessageNode.findByPath Node n path = None.
Proof. intros. repeat split. Qed.

(** C9, as the specification has it, fails for a tooltip that was supplied
    but is the empty string: the tree item is built without the field. *)
Lemma C9_empty_tooltip_is_dropped :
  MessageNode.tooltip
    {| MessageNode.message := "No SVD file";
       MessageNode.tooltip := Some (MessageNode.TooltipString EmptyString) |}
  = Some (MessageNode.TooltipString EmptyString)
  ∧ await (MessageNode.getTreeItem
             {| MessageNode.message := "No SVD file";
                MessageNode.tooltip := Some (MessageNode.TooltipString EmptyString) |})
    = Fulfilled {| MessageNode.label := "No SVD file";
                   MessageNode.collapsibleState := MessageNode.None_;
                   MessageNode.ti_tooltip := MessageNode.Unassigned |}.
Proof. split; reflexivity. Qed.

(** C9, amended.  The tree item of a message node carries the message as its
    label and is never collapsible.  Its tooltip is set to the tooltip of
    the node when that is a non-empty string or a markdown string, and the
    field is left out when no tooltip was supplied or the empty string was;
    it is never assigned [undefined]. *)
Theorem C9_tooltip_set_only_when_truthy :
  ∀ (n : MessageNode.MessageNode),
    ∃ ti, await (MessageNode.getTreeItem n) = Fulfilled ti
      ∧ MessageNode.label ti = MessageNode.message n
      ∧ MessageNode.collapsibleState ti = MessageNode.None_
      ∧ MessageNode.ti_tooltip ti =
          match MessageNode.tooltip n with
          | None => MessageNode.Unassigned
          | Some (MessageNode.TooltipString EmptyString) => MessageNode.Unassigned
          | Some t => MessageNode.Assigned (Some t)
          end
      ∧ MessageNode.ti_tooltip ti ≠ MessageNode.Assigned None.
Proof.
  intros [msg [[[|c s]|md]|]]; eexists; (split; [reflexivity|]); cbn; repeat split; discriminate.
Qed.

(** ** The tree table *)

Import TreeTable.

(** C3.  With an expansion configuration that supplies the list of expanded
    keys and the expand callback, a click on a row calls that callback once,
    with the row and with [true] exactly when the key of the row is not in
    the list. *)
Theorem C3_row_click_negates_membership :
  ∀ (props : Props) (ex : ExpansionProps) (keys : list string) (cb : ExpandCallback)
    (record : CDTTreeItem) (event : MouseEvent),
    expansion props = Some ex →
    expandedRowKeys ex = Some keys →
    onExpand ex = Some cb →
    clickRow props record event =
      {| calls := [OnExpand (negb (bool_decide (id record ∈ keys))) record];
         propagationStopped := false |}.
Proof.
  intros props ex keys cb record event Hex Hkeys Hcb.
  unfold clickRow. cbn [bubble].
  rewrite (onRowClick_supplied props ex cb record event start Hex Hcb), Hkeys.
  cbn. by rewrite includes_elem_of.
Qed.

(** The example of the specification: with ["a"] expanded, a click on row
    "bb" asks to expand it and a click on row "a" asks to collapse it. *)
Lemma C3_row_click_examples :
  (expansion Examples.props0 ≫= expandedRowKeys) = Some ["a"]
  ∧ calls (clickRow Examples.props0 Examples.rowBB Examples.click)
    = [OnExpand true Examples.rowBB]
  ∧ calls (clickRow Examples.props0 Examples.rowA Examples.click)
    = [OnExpand false Examples.rowA].
Proof.
  split; [reflexivity|]. split.
  - exact (f_equal calls
      (C3_row_click_negates_membership Examples.props0 _ _ _ Examples.rowBB Examples.click
         eq_refl eq_refl eq_refl)).
  - exact (f_equal calls
      (C3_row_click_negates_membership Examples.props0 _ _ _ Examples.rowA Examples.click
         eq_refl eq_refl eq_refl)).
Defined.

(** C10.  When no list of expanded keys is supplied, be it that the whole
    expansion configuration is missing or only the list, a click on any row
    calls the expand callback, if there is one, with [true]; the click does
    exactly what it does for the empty list.  A callback that was not
    supplied is skipped without any other effect. *)
Theorem C10_absent_keys_and_callbacks :
  ∀ (props : Props) (record : CDTTreeItem) (event : MouseEvent),
    expansion props ≫= expandedRowKeys = None →
    clickRow props record event =
      match expansion props ≫= onExpand with
      | Some _ => {| calls := [OnExpand true record]; propagationStopped := false |}
      | None => start
      end
    ∧ clickRow props record event =
        clickRow {| columnDefinitions := columnDefinitions props;
                    dataSource := dataSource props;
                    dataSourceComparer := dataSourceComparer props;
                    expansion := Some {| expandedRowKeys := Some [];
                                         onExpand := expansion props ≫= onExpand |};
                    pin := pin props;
                    action := action props |} record event
    ∧ ∀ (any : Props) (d : Dispatch),
        (expansion any ≫= onExpand = None → onRowClick any record event d = d)
        ∧ (pin any ≫= onPin = None → ∀ b, callOnPin any event b record d = d)
        ∧ (action any ≫= onAction = None → ∀ c v, callOnAction any event c v record d = d).
Proof.
  intros props record event Hkeys.
  assert (clickRow props record event =
            match expansion props ≫= onExpand with
            | Some _ => {| calls := [OnExpand true record]; propagationStopped := false |}
            | None => start
            end) as Hclick.
  { unfold clickRow, onRowClick, callOnExpand. cbn [bubble]. rewrite Hkeys.
    by destruct (expansion props ≫= onExpand). }
  split; [exact Hclick|]. split.
  - rewrite Hclick. unfold clickRow, onRowClick, callOnExpand. cbn.
    by destruct (expansion props ≫= onExpand).
  - intros any d. split; [apply onRowClick_absent|].
    split; intros H; intros;
      unfold callOnPin, callOnAction, PinCallback, ActionCallback in *; by rewrite H.
Qed.

(** With the callback supplied and the list of keys missing, a click on row
    "a" asks to expand it. *)
Lemma C10_click_without_keys :
  expansion Examples.props3 ≫= expandedRowKeys = None
  ∧ calls (clickRow Examples.props3 Examples.rowA Examples.click)
    = [OnExpand true Examples.rowA].
Proof.
  split; [reflexivity|].
  exact (f_equal calls
    (proj1 (C10_absent_keys_and_callbacks Examples.props3 Examples.rowA Examples.click
              eq_refl))).
Defined.

(** C7.  The component returns the placeholder exactly when the row list it
    holds is empty, and the table over the held rows otherwise; both are
    ordinary results. *)
Theorem C7_placeholder_iff_no_rows :
  ∀ (h : Hooks) (σ : gmap nat (list CDTTreeItem)),
    (view h σ = NoChildrenProvided ↔ heldRows h σ = [])
    ∧ view h σ =
        match heldRows h σ with
        | [] => NoChildrenProvided
        | _ :: _ => TableView (st_columns h) (heldRows h σ)
        end.
Proof.
  intros h σ. unfold view, heldRows.
  destruct (readArray σ (st_dataSource h)) as [|r rows]; cbn; by split.
Qed.

(** C6.  A column definition whose variant tag is neither ["string"] nor
    ["action"] gives a column all the same, at the place of the definition:
    the column of width 200 that reads the label of the field and has no
    renderer.  Its cell is the label the row has for that field, shown as
    it is, and the cell never throws. *)
Theorem C6_unknown_variant_is_label_column :
  ∀ (defs : list CDTTreeTableColumnDefinition) (i : nat) (c : CDTTreeTableColumnDefinition),
    defs !! i = Some c →
    type c ≠ "string" →
    type c ≠ "action" →
    length (createColumns defs) = length defs
    ∧ createColumns defs !! i =
        Some {| title := field c;
                dataIndex := ["columns"; field c; "label"];
                width := 200;
                render := None |}
    ∧ ∀ (props : Props) (record : CDTTreeItem),
        renderCell props
          {| title := field c;
             dataIndex := ["columns"; field c; "label"];
             width := 200;
             render := None |} record
        = Some (DefaultCell
                  (DString <$>
                     ((columns record
                         ≫= λ m : gmap string CDTTreeTableColumn, m !! field c)
                        ≫= cell_label))).
Proof.
  intros defs i c Hi Hs Ha. unfold createColumns.
  split; [apply length_map|]. split.
  - rewrite list_lookup_fmap, Hi. cbn.
    destruct (String.eqb_spec (type c) "string") as [?|_]; [done|].
    by destruct (String.eqb_spec (type c) "action") as [?|_].
  - intros props record. unfold renderCell, getNestedValue. cbn.
    destruct (columns record) as [m|]; cbn; [|done].
    destruct (m !! field c) as [cell|]; cbn; [|done].
    done.
Qed.

(** The definition of variant ["number"] gives the label column of the field
    "size", and row "a" shows its label there. *)
Lemma C6_number_column :
  createColumns (columnDefinitionsOrEmpty Examples.props0) !! 2%nat =
    Some {| title := "size"; dataIndex := ["columns"; "size"; "label"];
            width := 200; render := None |}
  ∧ renderCell Examples.props0
      {| title := "size"; dataIndex := ["columns"; "size"; "label"];
         width := 200; render := None |} Examples.rowA
    = Some (DefaultCell (Some (DString "4 bytes"))).
Proof.
  pose proof (C6_unknown_variant_is_label_column
                (columnDefinitionsOrEmpty Examples.props0) 2
                {| type := "number"; field := "size" |}
                eq_refl ltac:(discriminate) ltac:(discriminate)) as (_ & Hcol & Hcell).
  split; [exact Hcol|]. exact (Hcell Examples.props0 Examples.rowA).
Defined.

(** C8.  The action cell of a row starts with the pin toggle, followed by the
    icons of the commands.  There is a toggle exactly when the pinned state
    of the row is defined, and then there is one.  A click on it calls the
    pin callback, when one is supplied, with the event, the negation of the
    pinned state the row has, and the row. *)
Theorem C8_pin_toggle :
  ∀ (props : Props) (column : option CDTTreeTableColumn) (record : CDTTreeItem),
    renderActionColumn props column record =
      (actions props record
         ++ map (commandIcon props record) (default [] (column ≫= commands)))%list
    ∧ (actions props record = [] ↔ pinned record = None)
    ∧ ∀ (b : bool),
        pinned record = Some b →
        ∃ toggle,
          actions props record = [toggle]
          ∧ renderActionColumn props column record !! 0%nat = Some toggle
          ∧ ∀ (cb : PinCallback) (event : MouseEvent),
              pin props ≫= onPin = Some cb →
              onClick toggle event start =
                record_call (OnPin event (negb b) record) (cb event (negb b) record) start
              ∧ head (calls (clickIcon props record toggle event))
                = Some (OnPin event (negb b) record).
Proof.
  intros props column record. split.
  { unfold renderActionColumn. by destruct (column ≫= commands). }
  split.
  { unfold actions. destruct (pinned record) as [[|]|]; split; done. }
  intros b Hb. unfold renderActionColumn, actions. rewrite Hb.
  destruct b; eexists; (split; [reflexivity|]); (split; [reflexivity|]);
    intros cb event Hcb; rewrite clickIcon_unfold; cbn [onClick];
    unfold callOnPin, PinCallback in *; rewrite Hcb; cbn;
    (split; [reflexivity|]);
    by destruct (cb event _ record).
Qed.

(** Row "a" is pinned: its cell has the toggle, and a click on the toggle
    asks to unpin the row. *)
Lemma C8_unpin_click :
  pinned Examples.rowA = Some true
  ∧ ∃ toggle,
      actions Examples.props0 Examples.rowA = [toggle]
      ∧ calls (onClick toggle Examples.click start)
        = [OnPin Examples.click false Examples.rowA].
Proof.
  split; [reflexivity|].
  destruct (C8_pin_toggle Examples.props0 (Some Examples.actionsCell) Examples.rowA)
    as (_ & _ & H).
  destruct (H true eq_refl) as (toggle & Hrender & _ & Hclick).
  exists toggle. split; [exact Hrender|].
  destruct (Hclick _ Examples.click eq_refl) as [-> _]. reflexivity.
Defined.

(** C1, as the specification has it, fails: the view does not keep the click
    on a command icon away from the row.  With a consumer whose action
    callback leaves the event alone, a click on the second command of row
    "xxx" calls the action callback and then the expand callback. *)
Lemma C1_click_reaches_row_handler :
  renderActionColumn Examples.props0 (Some Examples.actionsCell) Examples.rowX !! 1%nat
  = Some (commandIcon Examples.props0 Examples.rowX Examples.cmdWrite)
  ∧ calls (clickIcon Examples.props0 Examples.rowX
             (commandIcon Examples.props0 Examples.rowX Examples.cmdWrite) Examples.click)
    = [ OnAction Examples.click Examples.cmdWrite (JsNumber 7) Examples.rowX;
        OnExpand true Examples.rowX ].
Proof. split; reflexivity. Qed.

(** C1, amended.  Every command of an action column has its icon in the cell
    of the row, after the pin toggle.  The handler of that icon calls the
    action callback, when one is supplied, with the event, the command, the
    value of the command and the row, and calls nothing else.  The view does
    not stop the event: when the callback stops it, that call is all the
    click does; when it does not, the click goes on to the row and does
    there what a click on the row does. *)
Theorem C1_command_click :
  ∀ (props : Props) (column : CDTTreeTableColumn) (record : CDTTreeItem)
    (cs : list CommandDefinition) (j : nat) (command : CommandDefinition)
    (event : MouseEvent) (cb : ActionCallback),
    commands column = Some cs →
    cs !! j = Some command →
    action props ≫= onAction = Some cb →
    renderActionColumn props (Some column) record !! (length (actions props record) + j)%nat
    = Some (commandIcon props record command)
    ∧ onClick (commandIcon props record command) event start =
        record_call (OnAction event command (value command) record)
          (cb event command (value command) record) start
    ∧ calls (clickIcon props record (commandIcon props record command) event) =
        OnAction event command (value command) record ::
          match cb event command (value command) record with
          | StopPropagation => []
          | LetBubble => calls (clickRow props record event)
          end.
Proof.
  intros props column record cs j command event cb Hcs Hj Hcb.
  assert (onClick (commandIcon props record command) event start =
            record_call (OnAction event command (value command) record)
              (cb event command (value command) record) start) as Hicon.
  { cbn [onClick commandIcon]. unfold callOnAction, ActionCallback in *. by rewrite Hcb. }
  split; [|split; [exact Hicon|]].
  - unfold renderActionColumn. cbn. rewrite Hcs.
    rewrite lookup_app_r by lia.
    replace (length (actions props record) + j - length (actions props record))%nat
      with j by lia.
    by rewrite list_lookup_fmap, Hj.
  - rewrite clickIcon_unfold, Hicon. cbn.
    by destruct (cb event command (value command) record).
Qed.

(** With a consumer whose action callback stops the event, the click on the
    second command of row "xxx" calls the action callback and nothing else. *)
Lemma C1_stopped_click :
  action Examples.props2 ≫= onAction = Some (λ _ _ _ _, StopPropagation)
  ∧ calls (clickIcon Examples.props2 Examples.rowX
             (commandIcon Examples.props2 Examples.rowX Examples.cmdWrite) Examples.click)
    = [ OnAction Examples.click Examples.cmdWrite (JsNumber 7) Examples.rowX ].
Proof.
  split; [reflexivity|].
  exact (proj2 (proj2
    (C1_command_click Examples.props2 Examples.actionsCell Examples.rowX
       [Examples.cmdRead; Examples.cmdWrite] 1 Examples.cmdWrite Examples.click
       (λ _ _ _ _, StopPropagation) eq_refl eq_refl eq_refl))).
Defined.

(** C2, as the specification has it, fails: the sort of the effect works on
    the array of the props itself.  The caller hands over the rows "bb", "a"
    and finds its own list holding "a", "bb" after the component mounted. *)
Lemma C2_caller_list_reordered :
  dataSource Examples.props0 = Some 0%nat
  ∧ Examples.store0 !! 0%nat = Some [Examples.rowBB; Examples.rowA]
  ∧ (mount Examples.props0 Examples.store0).2 !! 0%nat
    = Some [Examples.rowA; Examples.rowBB]
  ∧ [Examples.rowA; Examples.rowBB] ≠ [Examples.rowBB; Examples.rowA].
Proof.
  split; [reflexivity|]. split; [reflexivity|]. split; [vm_compute; reflexivity|].
  intros H. discriminate H.
Qed.

(** C2, amended.  The view changes no row and neither adds, drops nor
    repeats an element of the row list it is given, and it touches no other
    list of the caller.  The list object itself is sorted in place whenever
    the sort effect runs, at mount and at every update that runs it: the
    caller finds the same rows there, rearranged.  When the comparator is
    consistent, or none is supplied, the rows are then in comparator order,
    rows that compare equal in the order supplied; the list is in the order
    supplied exactly when it was in comparator order already, which it
    always is when no comparator is supplied, or, at an update, when the
    effect did not run. *)
Theorem C2_rows_kept_list_sorted_in_place :
  ∀ (props : Props) (σ : gmap nat (list CDTTreeItem)) (l : nat) (R : list CDTTreeItem)
    (h0 : Hooks),
    dataSource props = Some l →
    σ !! l = Some R →
    ∃ out : list CDTTreeItem,
      R ≡ₚ out
      ∧ (mount props σ).2 = <[l := out]> σ
      ∧ (update props h0 σ).2 = (if sortEffectRuns h0 props then <[l := out]> σ else σ)
      ∧ (∀ l', l' ≠ l →
           (mount props σ).2 !! l' = σ !! l' ∧ (update props h0 σ).2 !! l' = σ !! l')
      ∧ (Consistent (default defaultCompare (dataSourceComparer props)) →
         StableSortOf (default defaultCompare (dataSourceComparer props)) R out
         ∧ ((mount props σ).2 !! l = Some R
            ↔ StronglySorted (precedes (default defaultCompare (dataSourceComparer props))) R)
         ∧ ((update props h0 σ).2 !! l = Some R
            ↔ sortEffectRuns h0 props = false
              ∨ StronglySorted
                  (precedes (default defaultCompare (dataSourceComparer props))) R)
         ∧ (dataSourceComparer props = None → out = R)).
Proof.
  intros props σ l R h0 Hl HR.
  destruct (mount_store props σ l R Hl HR) as [Hmount _].
  assert ((update props h0 σ).2 =
            (if sortEffectRuns h0 props
             then <[l := sort (dataSourceComparer props) R]> σ
             else σ)) as Hupdate.
  { destruct (sortEffectRuns h0 props) eqn:Hruns.
    - by destruct (update_store props h0 σ l R Hl HR Hruns).
    - by destruct (update_idle props h0 σ Hruns). }
  exists (sort (dataSourceComparer props) R).
  split; [apply sortBy_perm|]. split; [exact Hmount|]. split; [exact Hupdate|].
  split.
  { intros l' Hne. rewrite Hmount, Hupdate. split.
    - by rewrite lookup_insert_ne.
    - destruct (sortEffectRuns h0 props); [by rewrite lookup_insert_ne|done]. }
  intros HC.
  assert (sort (dataSourceComparer props) R = R
          ↔ StronglySorted (precedes (default defaultCompare (dataSourceComparer props))) R)
    as Hsame.
  { split; [|apply sortBy_sorted_id].
    intros Heq. rewrite <- Heq. by apply sortBy_sorted. }
  split; [by apply sortBy_StableSortOf|]. split; [|split].
  - rewrite Hmount, lookup_insert_eq, <- Hsame. split; [by intros [=] | by intros ->].
  - rewrite Hupdate. destruct (sortEffectRuns h0 props).
    + rewrite lookup_insert_eq, <- Hsame. split.
      * intros [=]. by right.
      * intros [?| ->]; done.
    + split; [by left | done].
  - intros ->. apply sortBy_all_equal.
Qed.

(** Mounting over the caller's list "bb", "a", with shorter keys first,
    leaves the caller with the list "a", "bb". *)
Lemma C2_mount_sorts_store :
  dataSource Examples.props0 = Some 0%nat
  ∧ Examples.store0 !! 0%nat = Some [Examples.rowBB; Examples.rowA]
  ∧ Consistent (default defaultCompare (dataSourceComparer Examples.props0))
  ∧ (mount Examples.props0 Examples.store0).2
    = <[0%nat := [Examples.rowA; Examples.rowBB]]> Examples.store0
  ∧ (mount Examples.props0 Examples.store0).2 !! 0%nat
    ≠ Some [Examples.rowBB; Examples.rowA].
Proof.
  split; [reflexivity|]. split; [reflexivity|].
  split; [exact byKeyLength_Consistent|].
  destruct (C2_rows_kept_list_sorted_in_place Examples.props0 Examples.store0 0
              [Examples.rowBB; Examples.rowA] (mount Examples.props0 Examples.store0).1
              eq_refl eq_refl) as (out & _ & Hmount & _ & _ & Hcons).
  destruct (Hcons byKeyLength_Consistent) as ((Hp & Hs & Hst) & Hkept & _ & _).
  destruct byKeyLength_stable_sort as (Hp' & Hs' & Hst').
  assert (out = [Examples.rowA; Examples.rowBB]) as Hout.
  { apply (stable_sorted_unique Examples.byKeyLength byKeyLength_Consistent);
      [exact Hs | exact Hs' | by rewrite <- Hp | ].
    intros z. by rewrite Hst, Hst'. }
  split; [by rewrite Hmount, Hout|].
  intros Hsame. apply byKeyLength_unsorted. by apply Hkept.
Defined.



(** ** Further properties of the tree table *)

Section ClickFacts.

(** A click on a row calls the expand callback once, for that row, or calls
    nothing. *)
Lemma clickRow_calls props record event :
  calls (clickRow props record event) = []
  ∨ ∃ b, calls (clickRow props record event) = [OnExpand b record].
Proof.
  rewrite clickRow_onRowClick. unfold onRowClick, callOnExpand.
  destruct (expansion props ≫= onExpand); [right; by eexists | by left].
Qed.

Lemma onClick_toggle_calls props record i event :
  i ∈ actions props record →
  calls (onClick i event start) = []
  ∨ ∃ b, calls (onClick i event start) = [OnPin event b record].
Proof.
  unfold actions.
  destruct (pinned record) as [[|]|]; intros Hi;
    [apply list_elem_of_singleton in Hi as ->..|by apply elem_of_nil in Hi];
    cbn [onClick]; unfold callOnPin;
    (destruct (pin props ≫= onPin); [right; by eexists | by left]).
Qed.

Lemma onClick_command_calls props record command event :
  calls (onClick (commandIcon props record command) event start) = []
  ∨ calls (onClick (commandIcon props record command) event start)
    = [OnAction event command (value command) record].
Proof.
  cbn [onClick commandIcon]. unfold callOnAction.
  case_match; [by right | by left].
Qed.

End ClickFacts.

(** X1.  A click on the pin toggle of a row calls the pin callback, when one
    is supplied, with the event, the negated pinned state and the row.  The
    view does not stop the event: when the callback stops it nothing else is
    called; when it does not, the click goes on to the row and does there
    what a click on the row does. *)
Theorem pin_toggle_click_trace :
  ∀ (props : Props) (record : CDTTreeItem) (b : bool) (toggle : IconElement)
    (cb : PinCallback) (event : MouseEvent),
    pinned record = Some b →
    toggle ∈ actions props record →
    pin props ≫= onPin = Some cb →
    calls (clickIcon props record toggle event) =
      OnPin event (negb b) record ::
        match cb event (negb b) record with
        | StopPropagation => []
        | LetBubble => calls (clickRow props record event)
        end.
Proof.
  intros props record b toggle cb event Hb Hin Hcb.
  unfold actions in Hin. rewrite Hb in Hin.
  destruct b; apply list_elem_of_singleton in Hin as ->;
    rewrite clickIcon_unfold; cbn [onClick];
    unfold callOnPin, PinCallback in *; rewrite Hcb; cbn;
    by destruct (cb event _ record).
Qed.

(** Row "a" is pinned and expanded: with a consumer that leaves the event
    alone, the click on its toggle asks to unpin it and then to collapse it. *)
Lemma pin_toggle_click_reaches_row :
  ∃ toggle,
    actions Examples.props0 Examples.rowA = [toggle]
    ∧ calls (clickIcon Examples.props0 Examples.rowA toggle Examples.click)
      = [ OnPin Examples.click false Examples.rowA; OnExpand false Examples.rowA ].
Proof.
  eexists. split; [reflexivity|].
  exact (pin_toggle_click_trace Examples.props0 Examples.rowA true _
           (λ _ _ _, LetBubble) Examples.click eq_refl
           ltac:(apply list_elem_of_here) eq_refl).
Defined.

(** X2.  Whatever icon of an action cell is clicked, every callback the click
    leads to is told the row of that cell, and the event of the click when
    it is told an event; the click leads to two calls at most. *)
Theorem icon_click_routes_to_own_row :
  ∀ (props : Props) (column : option CDTTreeTableColumn) (record : CDTTreeItem)
    (i : IconElement) (event : MouseEvent),
    i ∈ renderActionColumn props column record →
    Forall (λ c, callRecord c = record
                 ∧ (callEvent c = None ∨ callEvent c = Some event))
           (calls (clickIcon props record i event))
    ∧ (length (calls (clickIcon props record i event)) ≤ 2)%nat.
Proof.
  intros props column record i event Hi.
  assert (calls (onClick i event start) = []
          ∨ ∃ c, calls (onClick i event start) = [c]
                 ∧ callRecord c = record ∧ callEvent c = Some event) as Hown.
  { unfold renderActionColumn in Hi. apply elem_of_app in Hi as [Hi|Hi].
    - destruct (onClick_toggle_calls props record i event Hi) as [->|[b ->]];
        [by left | right; by eexists].
    - destruct (column ≫= commands) as [cs|]; [|by apply elem_of_nil in Hi].
      apply list_elem_of_fmap in Hi as (command & -> & _).
      destruct (onClick_command_calls props record command event) as [->| ->];
        [by left | right; by eexists]. }
  rewrite clickIcon_unfold. cbv zeta.
  destruct (clickRow_calls props record event) as [Hrow|[b Hrow]];
    destruct Hown as [Hown|(c & Hown & Hr & He)];
    destruct (propagationStopped (onClick i event start));
    cbn [calls]; rewrite ?Hown, ?Hrow; cbn; split; try lia;
    repeat (apply Forall_cons; split; [split; [done | first [by left | by right]]|]);
    apply Forall_nil_2.
Qed.

Lemma icon_click_routes_example :
  Forall (λ c, callRecord c = Examples.rowX)
    (calls (clickIcon Examples.props0 Examples.rowX
              (commandIcon Examples.props0 Examples.rowX Examples.cmdRead) Examples.click)).
Proof.
  eapply Forall_impl.
  - exact (proj1 (icon_click_routes_to_own_row Examples.props0 (Some Examples.actionsCell)
                    Examples.rowX
                    (commandIcon Examples.props0 Examples.rowX Examples.cmdRead)
                    Examples.click ltac:(apply list_elem_of_here))).
  - intros c [Hc _]. exact Hc.
Defined.

(** X4.  An action column definition gives, at its place, a column of width
    64 titled by the field, and the cell of any row in that column is the
    action cell built from what the row has for the field: the toggle and
    the commands, or the toggle alone when the row has nothing there.  The
    cell never throws. *)
Theorem action_column_cell :
  ∀ (defs : list CDTTreeTableColumnDefinition) (i : nat) (c : CDTTreeTableColumnDefinition)
    (props : Props) (record : CDTTreeItem),
    defs !! i = Some c →
    type c = "action" →
    ∃ col,
      createColumns defs !! i = Some col
      ∧ title col = field c
      ∧ width col = 64
      ∧ renderCell props col record =
          Some (ActionCell
                  (renderActionColumn props
                     (columns record ≫= λ m : gmap string CDTTreeTableColumn, m !! field c)
                     record))
      ∧ ((columns record ≫= λ m : gmap string CDTTreeTableColumn, m !! field c) = None →
         renderCell props col record = Some (ActionCell (actions props record))).
Proof.
  intros defs i c props record Hi Hty. exists (actionColumn c).
  assert (renderCell props (actionColumn c) record =
            Some (ActionCell
                    (renderActionColumn props
                       (columns record ≫= λ m : gmap string CDTTreeTableColumn, m !! field c)
                       record))) as Hcell.
  { unfold renderCell, getNestedValue. cbn.
    destruct (columns record) as [m|]; cbn; [|done].
    by destruct (m !! field c). }
  split.
  { unfold createColumns. rewrite list_lookup_fmap, Hi. cbn. by rewrite Hty. }
  split; [done|]. split; [done|]. split; [exact Hcell|].
  intros Hnone. rewrite Hcell, Hnone. unfold renderActionColumn. cbn.
  by rewrite app_nil_r.
Qed.

(** Row "a" in the column of the definition "actions": the toggle and the
    two commands of the row. *)
Lemma action_column_cell_example :
  ∃ col,
    createColumns (columnDefinitionsOrEmpty Examples.props0) !! 1%nat = Some col
    ∧ renderCell Examples.props0 col Examples.rowA =
        Some (ActionCell
                (actions Examples.props0 Examples.rowA
                   ++ [ commandIcon Examples.props0 Examples.rowA Examples.cmdRead;
                        commandIcon Examples.props0 Examples.rowA Examples.cmdWrite ])%list).
Proof.
  destruct (action_column_cell (columnDefinitionsOrEmpty Examples.props0) 1
              {| type := "action"; field := "actions" |} Examples.props0 Examples.rowA
              eq_refl eq_refl) as (col & Hcol & _ & _ & Hcell & _).
  exists col. split; [exact Hcol|]. exact Hcell.
Defined.

(** X5.  The expand toggle is drawn exactly for the rows antd reports as
    expandable; it shows the chevron pointing down when the row is expanded
    and the one pointing right when it is not.  A click on it calls antd's
    [onExpand] with the row and the event and, as the toggle does not stop
    the event, goes on to the row unless that call stopped it. *)
Theorem expand_toggle :
  ∀ (props : Props) (p : RenderExpandIconProps) (event : MouseEvent),
    (expandIcon p = None ↔ icon_expandable p = false)
    ∧ ∀ t, expandIcon p = Some t →
        togglerClasses t =
          [ "tree-toggler-container"; "codicon";
            if icon_expanded p then "codicon-chevron-down" else "codicon-chevron-right" ]
        ∧ togglerOnClick t event start = icon_onExpand p (icon_record p) event start
        ∧ clickToggler props (icon_record p) t event =
            (if propagationStopped (icon_onExpand p (icon_record p) event start)
             then icon_onExpand p (icon_record p) event start
             else {| calls :=
                       calls (icon_onExpand p (icon_record p) event start)
                         ++ calls (clickRow props (icon_record p) event);
                     propagationStopped := false |}).
Proof.
  intros props p event. unfold expandIcon. split.
  - destruct (icon_expandable p), (icon_expanded p); by split.
  - intros t Ht.
    assert (togglerOnClick t = λ e, icon_onExpand p (icon_record p) e) as Hclick.
    { destruct (icon_expandable p), (icon_expanded p); by simplify_eq/=. }
    split; [destruct (icon_expandable p), (icon_expanded p); by simplify_eq/=|].
    split; [by rewrite Hclick|].
    unfold clickToggler. cbn [bubble]. rewrite Hclick.
    destruct (propagationStopped (icon_onExpand p (icon_record p) event start)) eqn:Hstop;
      [done|].
    rewrite onRowClick_appends, Hstop.
    by destruct (propagationStopped _).
Qed.

(** Row "bb" is collapsed and has children.  With an [onExpand] that passes
    the new state on to [expandable.onExpand], the click on its toggle asks
    to expand the row twice: once through that call, once through the click
    handler of the row. *)
Lemma expand_toggle_click_example :
  ∃ t,
    expandIcon {| icon_expanded := false;
                  icon_onExpand := Examples.antdTrigger Examples.props0 false;
                  icon_record := Examples.rowBB;
                  icon_expandable := true |} = Some t
    ∧ calls (clickToggler Examples.props0 Examples.rowBB t Examples.click)
      = [ OnExpand true Examples.rowBB; OnExpand true Examples.rowBB ].
Proof.
  eexists. split; [reflexivity|].
  exact (f_equal calls
    (proj2 (proj2
      (proj2 (expand_toggle Examples.props0
                {| icon_expanded := false;
                   icon_onExpand := Examples.antdTrigger Examples.props0 false;
                   icon_record := Examples.rowBB;
                   icon_expandable := true |} Examples.click) _ eq_refl)))).
Defined.

(** ** Further properties of the component *)

Section LifecycleFacts.

Lemma mount_hooks props (σ : gmap nat (list CDTTreeItem)) :
  st_columns (mount props σ).1 = createColumns (columnDefinitionsOrEmpty props)
  ∧ sortDeps (mount props σ).1 = sortDepsOf props
  ∧ columnDeps (mount props σ).1 = columnDepsOf props.
Proof.
  unfold mount, initial, sortEffect, dataSourceOrEmpty.
  by destruct (dataSource props).
Qed.

Lemma sortEffectRuns_mount props (σ : gmap nat (list CDTTreeItem)) :
  sortEffectRuns (mount props σ).1 props = false.
Proof.
  unfold sortEffectRuns. destruct (mount_hooks props σ) as (_ & -> & _).
  by rewrite bool_decide_eq_true_2.
Qed.

Lemma sort_nil_iff cmp (R : list CDTTreeItem) : sort cmp R = [] ↔ R = [].
Proof.
  split; [|by intros ->].
  intros H. apply Permutation_nil_r. rewrite <- H. apply sortBy_perm.
Qed.

Lemma sortBy_idempotent {A} (f : A → A → Z) (l : list A) :
  Consistent f → sortBy f (sortBy f l) = sortBy f l.
Proof. intros Hf. apply sortBy_sorted_id. by apply sortBy_sorted. Qed.

End LifecycleFacts.

(** X6.  Mounted without a row list, the component shows the placeholder,
    and every list the caller has is as it was: the empty list the effect
    sorts is one the component made itself. *)
Theorem mount_without_row_list :
  ∀ (props : Props) (σ : gmap nat (list CDTTreeItem)),
    dataSource props = None →
    view (mount props σ).1 (mount props σ).2 = NoChildrenProvided
    ∧ ∀ l R, σ !! l = Some R → (mount props σ).2 !! l = Some R.
Proof.
  intros props σ Hnone.
  unfold mount, initial, sortEffect, dataSourceOrEmpty. rewrite Hnone. cbn.
  set (l0 := fresh (dom σ)).
  set (l1 := fresh (dom (<[l0 := []]> σ))).
  split.
  - unfold view, readArray. cbn.
    by rewrite lookup_alter, decide_True, lookup_insert_eq by done.
  - intros l R Hl.
    assert (l ≠ l0) as Hne0.
    { intros ->. pose proof (is_fresh (dom σ)) as Hfresh.
      apply Hfresh. apply elem_of_dom. by eexists. }
    assert (l ≠ l1) as Hne1.
    { intros ->. pose proof (is_fresh (dom (<[l0 := []]> σ))) as Hfresh.
      apply Hfresh. apply elem_of_dom. rewrite lookup_insert_ne by done. by eexists. }
    by rewrite lookup_alter_ne, !lookup_insert_ne by done.
Qed.

Lemma mount_without_row_list_example :
  view (mount Examples.props5 Examples.store0).1 (mount Examples.props5 Examples.store0).2
  = NoChildrenProvided
  ∧ (mount Examples.props5 Examples.store0).2 !! 0%nat
    = Some [Examples.rowBB; Examples.rowA].
Proof.
  destruct (mount_without_row_list Examples.props5 Examples.store0 eq_refl) as [Hview Hkeep].
  split; [exact Hview|]. exact (Hkeep 0%nat _ eq_refl).
Defined.

(** X7.  Mounted with a row list, the component shows the placeholder when
    the list is empty and otherwise the table over the columns built from
    the column definitions and over the rows of the list, rearranged; when
    the comparator is consistent, or none is supplied, the table has the
    rows in comparator order, rows that compare equal in the order of the
    list. *)
Theorem mount_shows_sorted_table :
  ∀ (props : Props) (σ : gmap nat (list CDTTreeItem)) (l : nat) (R : list CDTTreeItem),
    dataSource props = Some l →
    σ !! l = Some R →
    ∃ rows : list CDTTreeItem,
      R ≡ₚ rows
      ∧ view (mount props σ).1 (mount props σ).2 =
          match R with
          | [] => NoChildrenProvided
          | _ :: _ => TableView (createColumns (columnDefinitionsOrEmpty props)) rows
          end
      ∧ (Consistent (default defaultCompare (dataSourceComparer props)) →
         StableSortOf (default defaultCompare (dataSourceComparer props)) R rows).
Proof.
  intros props σ l R Hl HR.
  destruct (mount_store props σ l R Hl HR) as [_ Hheld].
  destruct (mount_hooks props σ) as (Hcols & _ & _).
  exists (sort (dataSourceComparer props) R).
  split; [apply sortBy_perm|]. split; [|apply sortBy_StableSortOf].
  unfold view. unfold heldRows in Hheld. rewrite Hheld, Hcols.
  destruct R as [|r R]; [done|].
  destruct (sort (dataSourceComparer props) (r :: R)) eqn:Hs; [|done].
  by apply sort_nil_iff in Hs.
Qed.

(** Mounted over "bb", "a" with shorter keys first, the component shows the
    table with "a", "bb". *)
Lemma mount_shows_sorted_table_example :
  Consistent (default defaultCompare (dataSourceComparer Examples.props0))
  ∧ view (mount Examples.props0 Examples.store0).1 (mount Examples.props0 Examples.store0).2
    = TableView (createColumns (columnDefinitionsOrEmpty Examples.props0))
        [Examples.rowA; Examples.rowBB].
Proof.
  split; [exact byKeyLength_Consistent|].
  destruct (mount_shows_sorted_table Examples.props0 Examples.store0 0
              [Examples.rowBB; Examples.rowA] eq_refl eq_refl)
    as (rows & _ & Hview & Hcons).
  destruct (Hcons byKeyLength_Consistent) as (Hp & Hs & Hst).
  destruct byKeyLength_stable_sort as (Hp' & Hs' & Hst').
  assert (rows = [Examples.rowA; Examples.rowBB]) as Hrows.
  { apply (stable_sorted_unique Examples.byKeyLength byKeyLength_Consistent);
      [exact Hs | exact Hs' | by rewrite <- Hp | ].
    intros z. by rewrite Hst, Hst'. }
  by rewrite Hview, Hrows.
Defined.

(** X8.  Rendering again with the props the component was mounted with does
    nothing: no effect runs, the state and the store stay as they are. *)
Theorem rerender_with_same_props :
  ∀ (props : Props) (σ : gmap nat (list CDTTreeItem)),
    update props (mount props σ).1 (mount props σ).2 = mount props σ.
Proof.
  intros props σ. unfold update.
  rewrite sortEffectRuns_mount.
  destruct (mount_hooks props σ) as (_ & Hs & Hc).
  rewrite Hc, bool_decide_eq_true_2 by done.
  revert Hs Hc. destruct (mount props σ) as [[l cols d1 d2] σ']. cbn.
  by intros -> ->.
Qed.

(** X9.  The comparator is no dependency of the sort effect: props that
    bring another comparator, with the row list and the pinned keys being
    the objects they were, leave the store and the held rows as they are. *)
Theorem new_comparator_alone_sorts_nothing :
  ∀ (props props' : Props) (σ : gmap nat (list CDTTreeItem)),
    dataSource props' = dataSource props →
    ref <$> (pin props' ≫= pinnedRowKeys) = ref <$> (pin props ≫= pinnedRowKeys) →
    (update props' (mount props σ).1 (mount props σ).2).2 = (mount props σ).2
    ∧ heldRows (update props' (mount props σ).1 (mount props σ).2).1
        (update props' (mount props σ).1 (mount props σ).2).2
      = heldRows (mount props σ).1 (mount props σ).2.
Proof.
  intros props props' σ Hd Hp.
  assert (sortEffectRuns (mount props σ).1 props' = false) as Hidle.
  { unfold sortEffectRuns. destruct (mount_hooks props σ) as (_ & -> & _).
    unfold sortDepsOf. rewrite Hd, Hp. by rewrite bool_decide_eq_true_2. }
  destruct (update_idle props' (mount props σ).1 (mount props σ).2 Hidle) as [Hσ Hl].
  split; [exact Hσ|]. unfold heldRows. by rewrite Hσ, Hl.
Qed.

(** After mounting with "shorter keys first", props that only bring "longer
    keys first" leave the component holding "a", "bb". *)
Lemma new_comparator_alone_example :
  sort (dataSourceComparer Examples.props4) [Examples.rowA; Examples.rowBB]
  = [Examples.rowBB; Examples.rowA]
  ∧ heldRows
      (update Examples.props4 (mount Examples.props0 Examples.store0).1
         (mount Examples.props0 Examples.store0).2).1
      (update Examples.props4 (mount Examples.props0 Examples.store0).1
         (mount Examples.props0 Examples.store0).2).2
    = [Examples.rowA; Examples.rowBB].
Proof.
  split; [reflexivity|].
  rewrite (proj2 (new_comparator_alone_sorts_nothing Examples.props0 Examples.props4
                    Examples.store0 eq_refl eq_refl)).
  vm_compute. reflexivity.
Defined.

(** X10.  With a consistent comparator, sorting the row list again by the
    same comparator moves nothing: an update with the same row list and
    comparator leaves the store as mounting left it, whether or not the
    effect runs. *)
Theorem resort_by_same_comparator :
  ∀ (props props' : Props) (σ : gmap nat (list CDTTreeItem)) (l : nat)
    (R : list CDTTreeItem) (C : CDTTreeItem → CDTTreeItem → Z) (h0 : Hooks),
    Consistent C →
    dataSource props = Some l →
    dataSourceComparer props = Some C →
    dataSource props' = Some l →
    dataSourceComparer props' = Some C →
    σ !! l = Some R →
    (update props' h0 (mount props σ).2).2 = (mount props σ).2.
Proof.
  intros props props' σ l R C h0 HC Hl Hcmp Hl' Hcmp' HR.
  destruct (mount_store props σ l R Hl HR) as [Hσ _].
  destruct (sortEffectRuns h0 props') eqn:Hruns.
  - assert ((mount props σ).2 !! l = Some (sort (dataSourceComparer props) R)) as HR'.
    { by rewrite Hσ, lookup_insert_eq. }
    destruct (update_store props' h0 _ l _ Hl' HR' Hruns) as [-> _].
    rewrite Hcmp, Hcmp'.
    change (sort (Some C) (sort (Some C) R)) with (sortBy C (sortBy C R)).
    rewrite (sortBy_idempotent C R HC).
    apply insert_id. rewrite HR'. by rewrite Hcmp.
  - by destruct (update_idle props' h0 (mount props σ).2 Hruns).
Qed.

Lemma resort_by_same_comparator_example :
  sortEffectRuns (mount Examples.props0 Examples.store0).1 Examples.props1 = true
  ∧ (update Examples.props1 (mount Examples.props0 Examples.store0).1
       (mount Examples.props0 Examples.store0).2).2
    = (mount Examples.props0 Examples.store0).2.
Proof.
  split; [reflexivity|].
  exact (resort_by_same_comparator Examples.props0 Examples.props1 Examples.store0 0
           [Examples.rowBB; Examples.rowA] Examples.byKeyLength
           (mount Examples.props0 Examples.store0).1
           (rank_Consistent (λ a : CDTTreeItem, Z.of_nat (String.length (id a))))
           eq_refl eq_refl eq_refl eq_refl eq_refl).
Defined.


(** X11.  For a consistent comparator the rows the component holds after
    mounting are fixed by the row list and the comparator: every
    rearrangement of the list that is in comparator order and keeps rows
    that compare equal in the order they came in is the list held. *)
Theorem held_rows_are_the_stable_sort :
  ∀ (props : Props) (σ : gmap nat (list CDTTreeItem)) (l : nat)
    (R out : list CDTTreeItem) (C : CDTTreeItem → CDTTreeItem → Z),
    Consistent C →
    dataSource props = Some l →
    dataSourceComparer props = Some C →
    σ !! l = Some R →
    StableSortOf C R out →
    heldRows (mount props σ).1 (mount props σ).2 = out.
Proof.
  intros props σ l R out C HC Hl Hcmp HR (Hp & Hs & Hst).
  destruct (mount_store props σ l R Hl HR) as [_ ->]. rewrite Hcmp.
  change (sort (Some C) R) with (sortBy C R).
  destruct (sortBy_StableSortOf C R HC) as (Hp' & Hs' & Hst').
  apply (stable_sorted_unique C HC); [done|done|by rewrite <- Hp'|].
  intros z. by rewrite Hst, Hst'.
Qed.

Lemma held_rows_are_the_stable_sort_example :
  StableSortOf Examples.byKeyLength [Examples.rowBB; Examples.rowA]
    [Examples.rowA; Examples.rowBB]
  ∧ heldRows (mount Examples.props0 Examples.store0).1 (mount Examples.props0 Examples.store0).2
    = [Examples.rowA; Examples.rowBB].
Proof.
  assert (StableSortOf Examples.byKeyLength [Examples.rowBB; Examples.rowA]
            [Examples.rowA; Examples.rowBB]) as Hstable.
  { split; [apply Permutation_swap|]. split.
    - repeat constructor. unfold precedes. vm_compute. discriminate.
    - intros z. rewrite !filter_cons, !filter_nil.
      repeat case_decide; try done.
      unfold Examples.byKeyLength in *. cbn in *. lia. }
  split; [exact Hstable|].
  exact (held_rows_are_the_stable_sort Examples.props0 Examples.store0 0 _ _
           Examples.byKeyLength
           (rank_Consistent (λ a : CDTTreeItem, Z.of_nat (String.length (id a))))
           eq_refl eq_refl eq_refl Hstable).
Defined.

(** ** The window size *)

Section WindowFacts.

Lemma removeListener_elem_of f fs g :
  NoDup fs → g ∈ removeListener f fs ↔ g ∈ fs ∧ g ≠ f.
Proof.
  induction fs as [|h fs IH]; intros Hnd; cbn.
  { rewrite elem_of_nil. tauto. }
  apply NoDup_cons in Hnd as [Hh Hnd]. case_bool_decide as Hhf.
  - subst h. rewrite elem_of_cons. split.
    + intros Hg. split; [by right|]. by intros ->.
    + by intros [[->|?] ?].
  - rewrite !elem_of_cons, IH by done. split.
    + intros [->|[? ?]]; [by split; [left|] | by split; [right|]].
    + intros [[->|?] ?]; [by left | by right].
Qed.

Lemma removeListener_NoDup f fs : NoDup fs → NoDup (removeListener f fs).
Proof.
  induction fs as [|h fs IH]; intros Hnd; cbn; [done|].
  apply NoDup_cons in Hnd as [Hh Hnd]. case_bool_decide; [done|].
  apply NoDup_cons. split; [|by apply IH].
  rewrite removeListener_elem_of by done. tauto.
Qed.

Lemma removeListener_snoc f fs : f ∉ fs → removeListener f (fs ++ [f]) = fs.
Proof.
  induction fs as [|h fs IH]; intros Hf; cbn.
  { by rewrite bool_decide_eq_true_2. }
  apply not_elem_of_cons in Hf as [Hne Hf].
  rewrite bool_decide_eq_false_2 by done. by rewrite IH.
Qed.

(** Calling the listeners in [fs] gives each of the mounted hooks among them
    the size of the window. *)
Lemma updateSize_all fs p :
  window (foldl (λ p f, updateSize f p) p fs) = window p
  ∧ ∀ g, sizes (foldl (λ p f, updateSize f p) p fs) !! g =
         if bool_decide (g ∈ fs)
         then (λ _, (innerWidth (window p), innerHeight (window p))) <$> sizes p !! g
         else sizes p !! g.
Proof.
  revert p. induction fs as [|f fs IH]; intros p; cbn; [done|].
  destruct (IH (updateSize f p)) as [Hw Hs]. split; [by rewrite Hw|].
  intros g. rewrite Hs. cbn. rewrite lookup_alter.
  destruct (decide (g = f)) as [->|Hne].
  - rewrite decide_True by done.
    rewrite (bool_decide_eq_true_2 (f ∈ f :: fs)) by apply list_elem_of_here.
    case_bool_decide; by destruct (sizes p !! f).
  - rewrite decide_False by done.
    assert (bool_decide (g ∈ f :: fs) = bool_decide (g ∈ fs)) as ->; [|done].
    apply bool_decide_ext. rewrite elem_of_cons. tauto.
Qed.

Lemma pageInv_step p e : pageInv p → pageInv (pageStep p e).
Proof.
  intros (Hnd & Hdom & Hsz). destruct e as [f|f|wd ht]; cbn.
  - unfold mountWindowSize, updateSize, addEventListener, pageInv. cbn.
    split; [|split].
    + case_bool_decide; [done|]. apply NoDup_app. split; [done|].
      split; [|apply NoDup_singleton].
      intros x Hx ->%list_elem_of_singleton. done.
    + intros g. rewrite lookup_alter.
      destruct (decide (f = g)) as [->|Hne].
      * rewrite lookup_insert_eq. split; [by eexists|]. intros _.
        case_bool_decide; [done|]. apply elem_of_app. right. apply list_elem_of_here.
      * rewrite lookup_insert_ne, <- Hdom by done.
        case_bool_decide; [done|]. rewrite elem_of_app, list_elem_of_singleton.
        split; [intros [?|?]; [done | congruence] | by left].
    + intros g s. rewrite lookup_alter.
      destruct (decide (f = g)) as [->|Hne].
      * rewrite lookup_insert_eq. cbn. by intros [= <-].
      * rewrite lookup_insert_ne by done. apply Hsz.
  - unfold unmountWindowSize, removeEventListener, pageInv. cbn.
    split; [by apply removeListener_NoDup|]. split.
    + intros g. rewrite removeListener_elem_of, lookup_delete by done.
      destruct (decide (f = g)) as [->|Hne].
      * split; [tauto | by intros [? ?]].
      * rewrite Hdom. split; [by intros [? ?] | intros ?; split; [done | congruence]].
    + intros g s. rewrite lookup_delete.
      destruct (decide (f = g)); [done | apply Hsz].
  - unfold resize.
    match goal with |- pageInv (foldl _ ?q ?fs) =>
      destruct (updateSize_all fs q) as [Hw Hs] end.
    unfold pageInv. rewrite Hw. cbn. split; [done|]. split.
    + intros g. rewrite Hs. cbn.
      case_bool_decide; [rewrite fmap_is_Some|]; apply Hdom.
    + intros g s. rewrite Hs. cbn. case_bool_decide as Hg.
      * destruct (sizes p !! g); cbn; [by intros [= <-] | done].
      * intros Hsome. exfalso. apply Hg, Hdom. by eexists.
Qed.

Lemma pageInv_run es p : pageInv p → pageInv (runPage es p).
Proof.
  revert p. induction es as [|e es IH]; intros p Hp; [done|].
  apply IH. by apply pageInv_step.
Qed.

Lemma pageInv_empty wd ht : pageInv (emptyPage wd ht).
Proof.
  split; [apply NoDup_nil_2|]. split.
  - intros f. cbn. rewrite elem_of_nil, lookup_empty. split; [done | by intros [? ?]].
  - intros f s. cbn. by rewrite lookup_empty.
Qed.

End WindowFacts.

(** X12.  However tables are mounted and unmounted and the window resized,
    starting from a page with nothing mounted: every mounted table holds the
    size the window has now, so that its scroll area is that width and that
    height less 2; the listeners of the window are exactly the mounted
    tables, each of them once. *)
Theorem window_size_is_tracked :
  ∀ (es : list PageEvent) (wd ht : Z) (f : nat),
    NoDup (resizeListeners (window (runPage es (emptyPage wd ht))))
    ∧ (f ∈ resizeListeners (window (runPage es (emptyPage wd ht)))
       ↔ is_Some (sizes (runPage es (emptyPage wd ht)) !! f))
    ∧ (is_Some (sizes (runPage es (emptyPage wd ht)) !! f) →
       useWindowSize f (runPage es (emptyPage wd ht)) =
         (innerWidth (window (runPage es (emptyPage wd ht))),
          innerHeight (window (runPage es (emptyPage wd ht))))
       ∧ scroll (useWindowSize f (runPage es (emptyPage wd ht))) =
           (innerWidth (window (runPage es (emptyPage wd ht))),
            innerHeight (window (runPage es (emptyPage wd ht))) - 2)).
Proof.
  intros es wd ht f.
  destruct (pageInv_run es _ (pageInv_empty wd ht)) as (Hnd & Hdom & Hsz).
  split; [done|]. split; [apply Hdom|].
  intros [s Hs]. unfold useWindowSize. rewrite Hs. cbn.
  by rewrite (Hsz f s Hs).
Qed.

(** Two tables are mounted in a window of 1024 by 768, the window is resized
    to 800 by 600, the first table is unmounted: the second one holds 800 by
    600 and is the only listener left. *)
Lemma window_size_is_tracked_example :
  useWindowSize 2
    (runPage [Mounted 1; Mounted 2; Resized 800 600; Unmounted 1] (emptyPage 1024 768))
  = (800, 600)
  ∧ resizeListeners
      (window (runPage [Mounted 1; Mounted 2; Resized 800 600; Unmounted 1]
                 (emptyPage 1024 768)))
    = [2%nat].
Proof.
  split; [|vm_compute; reflexivity].
  exact (proj1 (proj2 (proj2
    (window_size_is_tracked [Mounted 1; Mounted 2; Resized 800 600; Unmounted 1]
       1024 768 2)) ltac:(vm_compute; by eexists))).
Defined.

(** X13.  Mounting a table and unmounting it again leaves the page as it
    was: the listener the table added is removed, the listeners of the other
    tables and their sizes are untouched. *)
Theorem mount_unmount_restores_page :
  ∀ (p : Page) (f : nat),
    f ∉ resizeListeners (window p) →
    sizes p !! f = None →
    unmountWindowSize f (mountWindowSize f p) = p.
Proof.
  intros [[wd ht fs] sz] f Hf Hnone. cbn in *.
  unfold unmountWindowSize, mountWindowSize, updateSize, removeEventListener,
    addEventListener. cbn.
  rewrite bool_decide_eq_false_2 by done.
  rewrite removeListener_snoc by done. f_equal.
  apply map_eq. intros g. rewrite lookup_delete.
  destruct (decide (f = g)) as [->|Hne]; [done|].
  by rewrite lookup_alter_ne, lookup_insert_ne by done.
Qed.

Lemma mount_unmount_restores_page_example :
  unmountWindowSize 2 (mountWindowSize 2 (mountWindowSize 1 (emptyPage 1024 768)))
  = mountWindowSize 1 (emptyPage 1024 768).
Proof.
  exact (mount_unmount_restores_page (mountWindowSize 1 (emptyPage 1024 768)) 2
           ltac:(vm_compute; intros ?%list_elem_of_singleton; done)
           ltac:(vm_compute; reflexivity)).
Defined.
